(** * Starlit Stories: the chat client, its API wrapper and the story pipeline

    A shallow embedding of the TypeScript front end of Starlit Stories
    (frontend/src/App-simple.tsx, frontend/src/App.tsx,
    frontend/src/api/generateStory.ts, frontend/src/components/FlipCard.tsx)
    together with a model of the orchestration core that the specification
    describes (intent router, bounded validation loop, response formatter).

    Conventions.
    - A JavaScript string is the list of its UTF-16 code units.
    - An optional field ([title?: string], a JSON field that may be missing or
      null) is an [option]; JavaScript truthiness is written out.
    - A React component is its state record plus one function per handler.
      A handler reads the state of the latest render and its [setX] calls are
      committed before the next event is handled, so a handler is a function
      from state to state.  An [async] handler is split at its [await]: the
      part that runs when the event fires, and the part that runs when the
      awaited promise settles.
    - A promise is represented by the way it settles. *)

From Stdlib Require Import NArith String Ascii DecimalString Lia.
From stdpp Require Import base list option.
From Stdlib Require DecimalN.

Local Open Scope N_scope.

(** ** JavaScript values used by the client *)

Module JS.

(** A UTF-16 code unit and a string of them. *)
Definition char16 := N.
Definition jsstring := list char16.

(** A source literal (all literals of the client are ASCII). *)
Definition lit (s : string) : jsstring :=
  map N_of_ascii (list_ascii_of_string s).

(** [Number.prototype.toString] on a non-negative integer. *)
Definition toString (n : N) : jsstring :=
  lit (NilZero.string_of_uint (N.to_uint n)).

(** Truthiness of a string: every string but the empty one. *)
Definition truthy (s : jsstring) : bool :=
  match s with [] => false | _ :: _ => true end.

(** Truthiness of a field that may be undefined or null. *)
Definition truthy_opt (o : option jsstring) : bool :=
  match o with Some s => truthy s | None => false end.

(** [a || b] where [a] may be undefined and [b] is a string. *)
Definition or_else (a : option jsstring) (b : jsstring) : jsstring :=
  match a with
  | Some s => if truthy s then s else b
  | None => b
  end.

(** [a || undefined]. *)
Definition or_undefined (a : option jsstring) : option jsstring :=
  match a with
  | Some s => if truthy s then Some s else None
  | None => None
  end.

(** ECMAScript WhiteSpace and LineTerminator code points, the characters
    removed by [String.prototype.trim]. *)
Definition isWhiteSpace (c : char16) : bool :=
  (c =? 0x09) || (c =? 0x0A) || (c =? 0x0B) || (c =? 0x0C) || (c =? 0x0D)
  || (c =? 0x20) || (c =? 0xA0) || (c =? 0x1680)
  || ((0x2000 <=? c) && (c <=? 0x200A))
  || (c =? 0x2028) || (c =? 0x2029) || (c =? 0x202F) || (c =? 0x205F)
  || (c =? 0x3000) || (c =? 0xFEFF).

Fixpoint trimStart (s : jsstring) : jsstring :=
  match s with
  | [] => []
  | c :: r => if isWhiteSpace c then trimStart r else s
  end.

Definition trimEnd (s : jsstring) : jsstring := rev (trimStart (rev s)).

Definition trim (s : jsstring) : jsstring := trimEnd (trimStart s).

(** A string made of white space only (the empty string included). *)
Definition blank (s : jsstring) : bool := forallb isWhiteSpace s.

(** No white space at the front. *)
Definition no_lead_ws (s : jsstring) : Prop :=
  match s with [] => True | c :: _ => isWhiteSpace c = false end.


(** No white space at the end. *)
Definition no_trail_ws (s : jsstring) : Prop := no_lead_ws (rev s).

(** [a === b] on two strings: the same code units in the same order. *)
Definition strict_eq (a b : jsstring) : bool :=
  if List.list_eq_dec N.eq_dec a b then true else false.

End JS.

(** ** frontend/src/api/generateStory.ts *)

Module Api.
Import JS.

(** What a promise is rejected with.  [isAxiosError] is the answer of
    [axios.isAxiosError], [detail] the value of
    [error.response?.data?.detail] and [message] that of [error.message]. *)
Record thrown := {
  isAxiosError : bool;
  detail : option jsstring;
  message : jsstring
}.

(** [new Error(msg)]. *)
Definition Error (msg : jsstring) : thrown :=
  {| isAxiosError := false; detail := None; message := msg |}.

(** The [TypeError] of a property read on [undefined] or [null]. *)
Definition TypeError : thrown :=
  Error (lit "Cannot read properties of undefined").

(** How a promise settles. *)
Inductive settled (A : Type) : Type :=
| Fulfilled (value : A)
| Rejected (reason : thrown).
Arguments Fulfilled {A} value.
Arguments Rejected {A} reason.

(** [const x = await p; k x]. *)
Definition await {A B : Type} (p : settled A) (k : A -> settled B) : settled B :=
  match p with
  | Fulfilled x => k x
  | Rejected e => Rejected e
  end.

(** [try { body } catch (error) { handler error }]. *)
Definition try_catch {A : Type} (body : settled A) (handler : thrown -> settled A)
  : settled A :=
  match body with
  | Fulfilled x => Fulfilled x
  | Rejected e => handler e
  end.

Inductive LengthTier := short | medium | long.

(** [StoryRequest]; [req_thread_id] is its field [thread_id]. *)
Record StoryRequest := {
  user_input : jsstring;
  length_tier : option LengthTier;
  req_thread_id : option jsstring
}.

(** [StoryResponse] as it arrives: a JSON field may be missing or null. *)
Record StoryResponse := {
  success : bool;
  story : option jsstring;
  title : option jsstring;
  moral : option jsstring;
  error : option jsstring;
  thread_id : option jsstring
}.

(** [generateStory].  [post request] is the way
    [apiClient.post('/generate_story', request)] settles, with
    [response.data] as its value. *)
Definition generateStory (post : StoryRequest -> settled StoryResponse)
    (request : StoryRequest) : settled StoryResponse :=
  try_catch
    (await (post request) (fun data => Fulfilled data))
    (fun error =>
       if isAxiosError error then
         let errorMessage := or_else (detail error) (message error) in
         Rejected (Error (lit "Failed to generate story: " ++ errorMessage))
       else Rejected error).

(** The body of a reply of GET /examples: its field [examples], when there. *)
Record ExamplesBody := { examples : option (list jsstring) }.

Definition fallbackExamples : list jsstring :=
  [ lit "Tell me a story about a brave little mouse";
    lit "I want to hear about a friendly dragon who loves to bake";
    lit "Create a story about a curious star exploring the night sky" ].

(** [getExamples].  [get] is the way [apiClient.get('/examples')] settles;
    its value is [response.data], [None] for a body that is undefined or
    null.  The result is the settled promise paired with what went to
    [console.error]; a resolved [None] is [undefined]. *)
Definition getExamples (get : settled (option ExamplesBody))
  : settled (option (list jsstring)) * list thrown :=
  match
    await get (fun data =>
      match data with
      | Some body => Fulfilled (examples body)
      | None => Rejected TypeError
      end)
  with
  | Fulfilled v => (Fulfilled v, [])
  | Rejected error => (Fulfilled (Some fallbackExamples), [error])
  end.


(** The body of a reply of GET /health: its field [status], when it is there
    and a string. *)
Record HealthBody := { status : option jsstring }.

(** [healthCheck].  [get] is the way [apiClient.get('/health')] settles; its
    value is [response.data], [None] for a body that is undefined or null. *)
Definition healthCheck (get : settled (option HealthBody)) : settled bool :=
  try_catch
    (await get (fun data =>
       match data with
       | Some body =>
           Fulfilled (match status body with
                      | Some s => strict_eq s (lit "healthy")
                      | None => false
                      end)
       | None => Rejected TypeError
       end))
    (fun error => Fulfilled false).

End Api.

(** ** frontend/src/components/FlipCard.tsx *)

Module FlipCard.
Import JS.

Record FlipCardProps := { title : jsstring; story : jsstring; moral : jsstring }.

(** The timers of the page: each pending [setTimeout] is its handle with the
    value its callback passes to [setIsFlipped]. *)
Record Timers := { pending : list (nat * bool); next_handle : nat }.

(** The component's state with the timers it started. *)
Record Card := {
  isFlipped : bool;
  longPressTimer : option nat;
  timers : Timers
}.

Definition clearTimeout (h : nat) (t : Timers) : Timers :=
  {| pending := List.filter (fun p => negb (Nat.eqb (fst p) h)) (pending t);
     next_handle := next_handle t |}.

(** The cleanup of the effect on [longPressTimer], run with the value the
    state had when the effect was set up. *)
Definition effect_cleanup (previous : option nat) (t : Timers) : Timers :=
  match previous with
  | Some h => clearTimeout h t
  | None => t
  end.

(** The card as first rendered. *)
Definition mount : Card :=
  {| isFlipped := false; longPressTimer := None;
     timers := {| pending := []; next_handle := 1 |} |}.

Definition handleContextMenu (c : Card) : Card :=
  {| isFlipped := negb (isFlipped c);
     longPressTimer := longPressTimer c;
     timers := timers c |}.

Definition handleTouchStart (c : Card) : Card :=
  let timer := next_handle (timers c) in
  let started :=
    {| pending := pending (timers c) ++ [(timer, negb (isFlipped c))];
       next_handle := S timer |} in
  {| isFlipped := isFlipped c;
     longPressTimer := Some timer;
     timers := effect_cleanup (longPressTimer c) started |}.

Definition handleTouchEnd (c : Card) : Card :=
  match longPressTimer c with
  | Some h =>
      {| isFlipped := isFlipped c;
         longPressTimer := None;
         timers := effect_cleanup (Some h) (clearTimeout h (timers c)) |}
  | None => c
  end.

(** A pending timer fires: its callback runs [setIsFlipped]. *)
Definition timeout (h : nat) (c : Card) : Card :=
  match find (fun p => Nat.eqb (fst p) h) (pending (timers c)) with
  | Some (_, v) =>
      {| isFlipped := v;
         longPressTimer := longPressTimer c;
         timers := clearTimeout h (timers c) |}
  | None => c
  end.

Inductive Event := ContextMenu | TouchStart | TouchEnd | Timeout (h : nat).

Definition step (c : Card) (ev : Event) : Card :=
  match ev with
  | ContextMenu => handleContextMenu c
  | TouchStart => handleTouchStart c
  | TouchEnd => handleTouchEnd c
  | Timeout h => timeout h c
  end.

(** [n] right-clicks in a row. *)
Definition rightClicks (n : nat) (c : Card) : Card :=
  Nat.iter n handleContextMenu c.

Inductive Position := relative | absolute.

(** What [render] makes depend on the state: whether the card carries the
    class [flipped], and the [position] of its two sides. *)
Record View := {
  flipped : bool;
  front_position : Position;
  back_position : Position;
  front_title : jsstring;
  front_story : jsstring;
  back_moral : jsstring
}.

Definition render (p : FlipCardProps) (c : Card) : View :=
  {| flipped := if isFlipped c then true else false;
     front_position := if isFlipped c then absolute else relative;
     back_position := if isFlipped c then relative else absolute;
     front_title := title p;
     front_story := story p;
     back_moral := moral p |}.

(** The front side carries the story, the back side the moral; the side in
    the flow of the page ([position: relative]) is the one turned to the
    reader. *)
Inductive Side := StorySide | MoralSide.

Definition shown (v : View) : Side :=
  match front_position v with
  | relative => StorySide
  | absolute => MoralSide
  end.


(** The card after a sequence of events. *)
Definition run (c : Card) (evs : list Event) : Card := fold_left step evs c.

(** The handle in [longPressTimer] has been handed out already, and the only
    timer that can be pending is the one [longPressTimer] holds. *)
Definition tidy (c : Card) : Prop :=
  (forall h, longPressTimer c = Some h -> (h < next_handle (timers c))%nat)
  /\ (pending (timers c) = []
      \/ exists h v, pending (timers c) = [(h, v)] /\ longPressTimer c = Some h).

End FlipCard.

(** ** frontend/src/App-simple.tsx *)

Module AppSimple.
Import JS.

Inductive Role := user | assistant.

Record Message := { id : jsstring; role : Role; content : jsstring }.

Record State := {
  messages : list Message;
  input : jsstring;
  isGenerating : bool
}.

Definition initial : State :=
  {| messages := []; input := []; isGenerating := false |}.

(** [handleSubmit] up to its [await]; [now] is the reading of [Date.now()].
    The boolean tells whether the handler went past its guard and is waiting
    for the two-second timer. *)
Definition handleSubmit (now : N) (st : State) : State * bool :=
  if negb (truthy (trim (input st))) || isGenerating st then (st, false)
  else
    let userMessage :=
      {| id := toString now; role := user; content := trim (input st) |} in
    ({| messages := messages st ++ [userMessage];
        input := [];
        isGenerating := true |}, true).

(** [handleSubmit] once the timer has fired. *)
Definition handleSubmit_resume (now : N) (st : State) : State :=
  let assistantMessage :=
    {| id := toString (now + 1); role := assistant;
       content :=
         lit "Backend integration coming soon! The app is loading correctly." |} in
  {| messages := messages st ++ [assistantMessage];
     input := input st;
     isGenerating := false |}.


(** The text of every reply of the simple client. *)
Definition placeholder : jsstring :=
  lit "Backend integration coming soon! The app is loading correctly.".

(** The simple client with the number of handlers that wait for their
    two-second timer. *)
Record World := { app : State; waiting : nat }.

Definition start : World := {| app := initial; waiting := 0 |}.

Inductive Event :=
| Change (value : jsstring)
| Submit (now : N)
| TimerFired (now : N).

(** One event: the text box changes ([setInput(e.target.value)]), the form
    is submitted, or the timer of a waiting handler fires. *)
Definition step (w : World) (ev : Event) : World :=
  match ev with
  | Change value =>
      {| app := {| messages := messages (app w); input := value;
                   isGenerating := isGenerating (app w) |};
         waiting := waiting w |}
  | Submit now =>
      let (st, went) := handleSubmit now (app w) in
      {| app := st; waiting := if went then S (waiting w) else waiting w |}
  | TimerFired now =>
      match waiting w with
      | O => w
      | S n => {| app := handleSubmit_resume now (app w); waiting := n |}
      end
  end.

Definition run (w : World) (evs : list Event) : World := fold_left step evs w.

(** [k] completed turns: a user message, then the reply. *)
Fixpoint dialogue (k : nat) : list Role :=
  match k with
  | O => []
  | S k' => dialogue k' ++ [user; assistant]
  end.

(** The simple client waits for at most one timer, exactly while
    [isGenerating] is true; its messages go by turns; and every reply is the
    placeholder. *)
Definition in_step (w : World) : Prop :=
  waiting w = (if isGenerating (app w) then 1 else 0)%nat
  /\ (exists k, map role (messages (app w))
                = dialogue k ++ (if isGenerating (app w) then [user] else []))
  /\ Forall (fun m => role m = assistant -> content m = placeholder)
       (messages (app w)).

End AppSimple.

(** ** frontend/src/App.tsx *)

Module App.
Import JS.
Export Api.

Inductive Role := user | assistant.

Record Story := { title : jsstring; text : jsstring; moral : jsstring }.

Record Message := {
  id : jsstring;
  role : Role;
  content : jsstring;
  story : option Story
}.

Record State := {
  messages : list Message;
  input : jsstring;
  isGenerating : bool;
  showWelcome : bool;
  threadId : option jsstring
}.

Definition initial : State :=
  {| messages := []; input := []; isGenerating := false;
     showWelcome := true; threadId := None |}.

Definition setMessages (f : list Message -> list Message) (st : State) : State :=
  {| messages := f (messages st); input := input st;
     isGenerating := isGenerating st; showWelcome := showWelcome st;
     threadId := threadId st |}.

Definition setInput (v : jsstring) (st : State) : State :=
  {| messages := messages st; input := v;
     isGenerating := isGenerating st; showWelcome := showWelcome st;
     threadId := threadId st |}.

Definition setIsGenerating (b : bool) (st : State) : State :=
  {| messages := messages st; input := input st;
     isGenerating := b; showWelcome := showWelcome st;
     threadId := threadId st |}.

Definition setShowWelcome (b : bool) (st : State) : State :=
  {| messages := messages st; input := input st;
     isGenerating := isGenerating st; showWelcome := b;
     threadId := threadId st |}.

Definition setThreadId (t : option jsstring) (st : State) : State :=
  {| messages := messages st; input := input st;
     isGenerating := isGenerating st; showWelcome := showWelcome st;
     threadId := t |}.

(** What [generateStoryFromBackend] resolves with. *)
Record StoryData := {
  data_title : option jsstring;
  data_text : jsstring;
  data_moral : option jsstring;
  isConversational : bool
}.

(** [generateStoryFromBackend] up to its [await]: the state it leaves and the
    request it hands to [generateStory].  [threadId] is the one of the render
    the handler belongs to. *)
Definition generateStoryFromBackend_call (prompt : jsstring) (st : State)
  : State * StoryRequest :=
  (setIsGenerating true st,
   {| user_input := prompt;
      length_tier := Some medium;
      req_thread_id := or_undefined (threadId st) |}).

(** [generateStoryFromBackend] from the moment [generateStory] has settled
    with [r]: what it settles with, the state it leaves, and what it wrote
    with [console.error]. *)
Definition generateStoryFromBackend_settle (r : settled StoryResponse) (st : State)
  : settled StoryData * State * list thrown :=
  match r with
  | Fulfilled response =>
      let st1 :=
        if truthy_opt (thread_id response)
        then setThreadId (thread_id response) st
        else st in
      match (if success response then or_undefined (Api.story response) else None) with
      | Some story_text =>
          if truthy_opt (Api.title response) then
            (Fulfilled {| data_title := Api.title response;
                          data_text := story_text;
                          data_moral := Api.moral response;
                          isConversational := false |}, st1, [])
          else
            (Fulfilled {| data_title := None;
                          data_text := story_text;
                          data_moral := None;
                          isConversational := true |}, st1, [])
      | None =>
          let thrown_here :=
            Error (or_else (error response) (lit "Failed to generate story")) in
          (Rejected thrown_here, st1, [thrown_here])
      end
  | Rejected e => (Rejected e, st, [e])
  end.

(** [a || b] on two strings. *)
Definition or_str (a b : jsstring) : jsstring := if truthy a then a else b.

Definition apology : jsstring :=
  lit "Sorry, I encountered an error generating your story. Please try again with a different request.".

(** [handleSubmit] up to the [await] inside [generateStoryFromBackend]; [now]
    is the reading of [Date.now()].  The request is the one handed to
    [generateStory], [None] when the handler returned at its guard. *)
Definition handleSubmit (now : N) (st : State) : State * option StoryRequest :=
  if negb (truthy (trim (input st))) || isGenerating st then (st, None)
  else
    let userMessage :=
      {| id := toString now; role := user; content := trim (input st);
         story := None |} in
    let st1 := setMessages (fun prev => prev ++ [userMessage]) st in
    let st2 := setInput [] st1 in
    let (st3, request) := generateStoryFromBackend_call (trim (input st)) st2 in
    (st3, Some request).

(** [handleSubmit] from the moment [generateStory] has settled with [r]. *)
Definition handleSubmit_resume (now : N) (r : settled StoryResponse) (st : State)
  : State * list thrown :=
  let '(storyData, st1, logged) := generateStoryFromBackend_settle r st in
  let st2 :=
    match storyData with
    | Fulfilled storyData =>
        let assistantMessage :=
          {| id := toString (now + 1);
             role := assistant;
             content :=
               if isConversational storyData then data_text storyData
               else or_else (data_title storyData) (lit "Story Generated");
             story :=
               if isConversational storyData then None
               else Some {| title := or_else (data_title storyData) [];
                            text := or_str (data_text storyData) [];
                            moral := or_else (data_moral storyData) [] |} |} in
        setMessages (fun prev => prev ++ [assistantMessage]) st1
    | Rejected _ =>
        let errorMessage :=
          {| id := toString (now + 1); role := assistant;
             content := apology; story := None |} in
        setMessages (fun prev => prev ++ [errorMessage]) st1
    end in
  (setIsGenerating false st2, logged).

(** What a message is drawn as. *)
Inductive Bubble :=
| UserBubble (content : jsstring)
| FlipCardOf (props : FlipCard.FlipCardProps)
| AssistantBubble (content : jsstring).

Definition renderMessage (message : Message) : Bubble :=
  match role message with
  | user => UserBubble (content message)
  | assistant =>
      match story message with
      | Some s =>
          FlipCardOf {| FlipCard.title := title s;
                        FlipCard.story := text s;
                        FlipCard.moral := moral s |}
      | None => AssistantBubble (content message)
      end
  end.

(** The rendered conversation. *)
Definition render (st : State) : list Bubble := map renderMessage (messages st).

(** The submit button's [disabled]. *)
Definition submitDisabled (st : State) : bool :=
  isGenerating st || negb (truthy (trim (input st))).

(** *** The client and the requests it has under way *)

Record World := {
  app : State;
  outstanding : list StoryRequest;
  sent : list StoryRequest;
  console : list thrown
}.

Definition start : World :=
  {| app := initial; outstanding := []; sent := []; console := [] |}.

Inductive Event :=
| Change (value : jsstring)
| Submit (now : N)
| Settle (i : nat) (now : N) (post : settled StoryResponse)
| WelcomeTimeout.

(** One event: the text box changes, the form is submitted, the POST of the
    [i]-th request under way settles, or the welcome timer fires. *)
Definition step (w : World) (ev : Event) : World :=
  match ev with
  | Change value =>
      {| app := setInput value (app w); outstanding := outstanding w;
         sent := sent w; console := console w |}
  | Submit now =>
      match handleSubmit now (app w) with
      | (st, Some request) =>
          {| app := st; outstanding := outstanding w ++ [request];
             sent := sent w ++ [request]; console := console w |}
      | (st, None) =>
          {| app := st; outstanding := outstanding w;
             sent := sent w; console := console w |}
      end
  | Settle i now post =>
      match outstanding w !! i with
      | Some request =>
          let (st, logged) :=
            handleSubmit_resume now (generateStory (fun _ => post) request) (app w) in
          {| app := st; outstanding := delete i (outstanding w);
             sent := sent w; console := console w ++ logged |}
      | None => w
      end
  | WelcomeTimeout =>
      {| app := setShowWelcome false (app w); outstanding := outstanding w;
         sent := sent w; console := console w |}
  end.

Definition run (w : World) (evs : list Event) : World := fold_left step evs w.

(** *** Predicates on the client's states, requests and replies *)

(** While no request is under way [isGenerating] is false, and there is never
    more than one under way. *)
Definition single (w : World) : Prop :=
  (isGenerating (app w) = false -> outstanding w = [])
  /\ (length (outstanding w) <= 1)%nat.

(** A request whose [user_input] is trimmed and not empty. *)
Definition well_formed (rq : StoryRequest) : Prop :=
  truthy (trim (user_input rq)) = true /\ trim (user_input rq) = user_input rq.

(** A generation request fails when the POST is rejected, or the reply says
    [success: false], or the reply has no story text. *)
Definition failure (post : settled StoryResponse) : Prop :=
  match post with
  | Rejected _ => True
  | Fulfilled response =>
      success response = false \/ truthy_opt (Api.story response) = false
  end.

(** Whether a message is drawn as a flip card. *)
Definition isFlipCard (b : Bubble) : bool :=
  match b with
  | FlipCardOf _ => true
  | _ => false
  end.










(** The welcome line is drawn when [showWelcome && messages.length === 0]. *)
Definition welcomeVisible (st : State) : bool :=
  showWelcome st && Nat.eqb (length (messages st)) 0.

(** The "Weaving your story..." indicator is drawn when [isGenerating]. *)
Definition indicatorVisible (st : State) : bool := isGenerating st.

Definition isUser (m : Message) : bool :=
  match role m with
  | user => true
  | assistant => false
  end.

(** What the user's bubbles say, oldest first. *)
Definition asked (st : State) : list jsstring :=
  map content (List.filter isUser (messages st)).

(** [k] completed turns: a user message, then the reply. *)
Fixpoint dialogue (k : nat) : list Role :=
  match k with
  | O => []
  | S k' => dialogue k' ++ [user; assistant]
  end.

(** [isGenerating] is true only while a request is under way. *)
Definition busy_means_waiting (w : World) : Prop :=
  isGenerating (app w) = true -> outstanding w <> [].

End App.

(** ** The orchestration core

    The back end (the router, the generation and validation loop and the
    formatter behind POST /generate_story) is not among the source files of
    the client.  Its control flow is modelled here from the specification;
    the language model, the validator's judgment, the lexical patterns and
    the prompt texts stay parameters. *)

Module Core.
Local Open Scope string_scope.
Local Open Scope nat_scope.

Definition text := string.

(** Modelled from the spec: the length tiers of a GenerationRequest and the
    violation categories of a ValidationVerdict (section 3). *)
Inductive LengthTier := short | medium | long.

Inductive ViolationCategory := violence | adult_themes | fear_horror | other.

(** Modelled from the spec: a thread's last accepted story and its turns
    (section 3, ConversationThread). *)
Record Story := {
  title : text;
  body : text;
  moral : text;
  theme_tags : list text
}.

Inductive Role := user | assistant.

Record Turn := { role : Role; content : text; timestamp : nat }.

(** Modelled from the spec: ConversationThread (section 3), the record the
    ThreadStore keeps per thread id: the turns so far and the last accepted
    story, if any. *)
Record ConversationThread := {
  turns : list Turn;
  last_story : option Story
}.

(** Modelled from the spec: a thread has a live story when it holds a last
    accepted story (glossary, "Live story"). *)
Definition has_live_story (thread : ConversationThread) : bool :=
  match last_story thread with
  | Some _ => true
  | None => false
  end.

(** Modelled from the spec: ClassifiedIntent (section 3), the router's
    output. *)
Inductive ClassifiedIntent :=
| NewStory (theme_hint : text)
| ModifyStory (modification_hint : text)
| RetrieveClassic (query : text)
| Greeting
| Farewell
| Other (raw_text : text).

Section IntentRouter.

(** The lexical and semantic patterns of the router, which the specification
    leaves to the implementer (a word list or a learned classifier). *)
Variable matches_farewell : text -> bool.
Variable matches_greeting : text -> bool.
Variable names_classic : text -> bool.
Variable refers_to_modification : text -> bool.

(** Modelled from the spec: the IntentRouter's decision policy (section 4.3),
    the five steps in their priority order, on the input and the thread's
    live-story flag.  The router's code is missing from the source files. *)
Definition classify (user_input : text) (live_story : bool) : ClassifiedIntent :=
  if matches_farewell user_input then Farewell
  else if matches_greeting user_input then Greeting
  else if names_classic user_input then RetrieveClassic user_input
  else if live_story && refers_to_modification user_input then ModifyStory user_input
  else NewStory user_input.

(** Modelled from the spec: the router reads the thread's state from the
    ThreadStore (section 2, control flow) and classifies against it. *)
Definition route (user_input : text) (thread : ConversationThread) : ClassifiedIntent :=
  classify user_input (has_live_story thread).

End IntentRouter.

(** Modelled from the spec: StoryDraft, ValidationVerdict and the
    configuration surface (sections 3 and 6). *)
Record StoryDraft := {
  draft_title : text;
  draft_body : text;
  draft_moral : option text;
  attempt_count : nat;
  rejection_reasons : list ViolationCategory
}.

Record ValidationVerdict := {
  accepted : bool;
  reasons : list ViolationCategory;
  suggested_fix : option text
}.

Record Config := {
  max_iterations : nat;
  default_length_tier : LengthTier;
  enable_safety_checks : bool;
  strict_mode : bool
}.


(** What the generator hands to the LanguageModelGateway in [Drafting]. *)
Record Prompt := {
  hint : text;
  prior_story : option Story;
  tier : LengthTier;
  negative_constraints : list ViolationCategory;
  fix_hint : option text
}.

(** Modelled from the spec: the states of the retry loop (section 4.4).
    [Drafting] carries the attempt counter and the rejection reasons gathered
    so far; the other states carry the draft at hand. *)
Inductive LoopState :=
| Drafting (attempts : nat) (gathered : list ViolationCategory) (fix_text : option text)
| Validating (draft : StoryDraft)
| Retrying (draft : StoryDraft) (verdict : ValidationVerdict)
| Accepted (draft : StoryDraft)
| Exhausted (draft : StoryDraft).




Section RetryLoop.

Variable cfg : Config.

(** The text-generation capability: the title and body it returns on its
    [n]-th call of the request for a prompt. *)
Variable complete : nat -> Prompt -> text * text.

(** The SafetyValidator's verdict on a draft. *)
Variable validate : StoryDraft -> ValidationVerdict.

(** The MoralSummarizer; [None] when it fails. *)
Variable summarize : text -> option text.

(** The wording of the refusal, part of the prompt configuration. *)
Variable refusal : text.

(** The request: theme or modification hint, the story to revise, the tier. *)
Variable request_hint : text.
Variable request_prior : option Story.
Variable request_tier : LengthTier.

(** Modelled from the spec: one transition of the loop of section 4.4, whose
    code is missing from the source files.  [Drafting] calls the gateway and
    increments [attempt_count]; [Validating] accepts, or compares the counter
    with [max_iterations]: below it the loop retries, at it the loop is
    exhausted; [Retrying] goes back to [Drafting] with the verdict's reasons
    appended.  [Accepted] and [Exhausted] are terminal. *)
Definition step (s : LoopState) : option LoopState :=
  match s with
  | Drafting n gathered fix_text =>
      let (t, b) :=
        complete n {| hint := request_hint; prior_story := request_prior;
                      tier := request_tier; negative_constraints := gathered;
                      fix_hint := fix_text |} in
      Some (Validating {| draft_title := t; draft_body := b; draft_moral := None;
                          attempt_count := S n; rejection_reasons := gathered |})
  | Validating d =>
      let v := validate d in
      if accepted v then Some (Accepted d)
      else if attempt_count d <? max_iterations cfg then Some (Retrying d v)
      else if attempt_count d =? max_iterations cfg then Some (Exhausted d)
      else None
  | Retrying d v =>
      Some (Drafting (attempt_count d) (rejection_reasons d ++ reasons v)
                     (suggested_fix v))
  | Accepted _ => None
  | Exhausted _ => None
  end.

(** Modelled from the spec: [attempt_count] starts at 0 before the first
    draft, with no rejection reasons yet. *)
Definition initial : LoopState := Drafting 0 [] None.

(** The states the loop goes through from [s], at most [fuel] transitions. *)
Fixpoint trace (fuel : nat) (s : LoopState) : list LoopState :=
  s :: match fuel with
       | 0 => []
       | S fuel' =>
           match step s with
           | Some s' => trace fuel' s'
           | None => []
           end
       end.

(** The state the loop is in after at most [fuel] transitions from [s]. *)
Fixpoint final (fuel : nat) (s : LoopState) : LoopState :=
  match fuel with
  | 0 => s
  | S fuel' =>
      match step s with
      | Some s' => final fuel' s'
      | None => s
      end
  end.

(** The drafts produced along a trace, one per generation attempt. *)
Definition drafts (tr : list LoopState) : list StoryDraft :=
  flat_map (fun s => match s with Validating d => [d] | _ => [] end) tr.

(** The retries along a trace. *)
Definition retries (tr : list LoopState) : nat :=
  length (List.filter (fun s => match s with Retrying _ _ => true | _ => false end) tr).



End RetryLoop.



(** *** A stubbed validator and gateway *)

(** A thread that holds no story yet. *)
Definition empty_thread : ConversationThread :=
  {| turns := []; last_story := None |}.

(** A validator stubbed to reject everything, a gateway that always tells
    the same tale, and a configuration that allows a single attempt. *)
Definition always_reject (d : StoryDraft) : ValidationVerdict :=
  {| accepted := false; reasons := [fear_horror]; suggested_fix := None |}.

Definition same_tale (n : nat) (p : Prompt) : text * text :=
  ("The Dark Cave", "A monster was hiding in the dark cave.").

Definition single_attempt : Config :=
  {| max_iterations := 1; default_length_tier := medium;
     enable_safety_checks := true; strict_mode := true |}.



End Core.

(** * Properties *)

(** ** [String.prototype.trim] *)

Module JSFacts.
Import JS.

Lemma trimStart_fix s : no_lead_ws s -> trimStart s = s.
Proof. destruct s as [|c r]; simpl; [easy|]. now intros ->. Qed.

Lemma trimStart_no_lead s : no_lead_ws (trimStart s).
Proof.
  induction s as [|c r IH]; simpl; [exact I|].
  destruct (isWhiteSpace c) eqn:E; [exact IH|exact E].
Qed.

Lemma trimStart_idem s : trimStart (trimStart s) = trimStart s.
Proof. apply trimStart_fix, trimStart_no_lead. Qed.

Lemma trimStart_snoc l c :
  isWhiteSpace c = false -> exists w, trimStart (l ++ [c]) = w ++ [c].
Proof.
  intros Hc. induction l as [|a l IH]; simpl.
  - rewrite Hc. now exists [].
  - destruct (isWhiteSpace a); [exact IH|]. now exists (a :: l).
Qed.

Lemma trimEnd_no_lead s : no_lead_ws s -> no_lead_ws (trimEnd s).
Proof.
  destruct s as [|c r]; [intros _; exact I|]. simpl. intros Hc.
  unfold trimEnd. simpl.
  destruct (trimStart_snoc (rev r) c Hc) as [w ->].
  rewrite rev_app_distr. exact Hc.
Qed.

Lemma trimEnd_idem s : trimEnd (trimEnd s) = trimEnd s.
Proof. unfold trimEnd. now rewrite rev_involutive, trimStart_idem. Qed.

Lemma trim_no_lead s : no_lead_ws (trim s).
Proof. apply trimEnd_no_lead, trimStart_no_lead. Qed.

(** Trimming a trimmed string changes nothing. *)
Lemma trim_idem s : trim (trim s) = trim s.
Proof.
  unfold trim at 1. rewrite (trimStart_fix (trim s)) by apply trim_no_lead.
  unfold trim. apply trimEnd_idem.
Qed.

Lemma trimStart_blank s : blank s = true -> trimStart s = [].
Proof.
  induction s as [|c r IH]; simpl; [easy|].
  destruct (isWhiteSpace c); simpl; [exact IH|discriminate].
Qed.

Lemma trimStart_nil_blank s : trimStart s = [] -> blank s = true.
Proof.
  induction s as [|c r IH]; simpl; [easy|].
  destruct (isWhiteSpace c); simpl; [exact IH|discriminate].
Qed.

Lemma blank_rev s : blank (rev s) = blank s.
Proof.
  unfold blank. induction s as [|c r IH]; simpl; [easy|].
  rewrite forallb_app, IH. simpl. rewrite andb_true_r. apply andb_comm.
Qed.

Lemma blank_trimStart s : blank (trimStart s) = blank s.
Proof.
  induction s as [|c r IH]; simpl; [easy|].
  destruct (isWhiteSpace c) eqn:Ec; simpl; [exact IH|].
  now rewrite Ec.
Qed.

(** [trim] returns the empty string exactly on the strings made of white
    space only. *)
Lemma trim_nil_iff s : trim s = [] <-> blank s = true.
Proof.
  unfold trim, trimEnd. split.
  - intros H. apply (f_equal (@rev _)) in H. rewrite rev_involutive in H.
    simpl in H. apply trimStart_nil_blank in H.
    now rewrite blank_rev, blank_trimStart in H.
  - intros H. now rewrite (trimStart_blank s H).
Qed.

Lemma truthy_trim s : truthy (trim s) = negb (blank s).
Proof.
  destruct (blank s) eqn:E.
  - apply trim_nil_iff in E. now rewrite E.
  - destruct (trim s) eqn:T; [|easy].
    apply trim_nil_iff in T. congruence.
Qed.

End JSFacts.

(** ** The API wrapper *)

Module ApiFacts.
Import JS Api.

(** [generateStory] hands the reply's data through untouched. *)
Lemma generateStory_fulfilled post request data :
  post request = Fulfilled data -> generateStory post request = Fulfilled data.
Proof. unfold generateStory. now intros ->. Qed.

(** [generateStory] rejects whenever the POST does. *)
Lemma generateStory_rejected post request e :
  post request = Rejected e -> exists e', generateStory post request = Rejected e'.
Proof.
  unfold generateStory. intros ->. simpl.
  destruct (isAxiosError e); eauto.
Qed.

(** C10. [getExamples] never rejects: however the GET settles, the promise
    is fulfilled.  When the GET fails it is fulfilled with the fixed list of
    three fallback prompts (and the failure goes to the console); when the
    GET succeeds with a body that holds an [examples] array, it is fulfilled
    with that array. *)
Theorem getExamples_never_rejects :
  (forall get, exists v, fst (getExamples get) = Fulfilled v)
  /\ (forall e, getExamples (Rejected e) = (Fulfilled (Some fallbackExamples), [e]))
  /\ length fallbackExamples = 3%nat
  /\ (forall l,
        getExamples (Fulfilled (Some {| examples := Some l |})) = (Fulfilled (Some l), [])).
Proof.
  repeat split.
  intros [[body|]|e]; simpl; eauto.
Qed.

End ApiFacts.

(** ** The flip card *)

Module FlipCardFacts.
Import FlipCard.

Lemma handleContextMenu_flips c :
  isFlipped (handleContextMenu c) = negb (isFlipped c).
Proof. reflexivity. Qed.

Lemma handleContextMenu_twice c : handleContextMenu (handleContextMenu c) = c.
Proof.
  destruct c as [f l t]. unfold handleContextMenu. simpl.
  now rewrite negb_involutive.
Qed.

Lemma rightClicks_S n c :
  rightClicks (S n) c = handleContextMenu (rightClicks n c).
Proof. reflexivity. Qed.

(** After [n] right-clicks the card is flipped exactly when [n] is odd or the
    card was flipped to begin with, but not both. *)
Lemma rightClicks_flipped n c :
  isFlipped (rightClicks n c) = xorb (Nat.odd n) (isFlipped c).
Proof.
  induction n as [|n IH].
  - reflexivity.
  - rewrite rightClicks_S, handleContextMenu_flips, IH, Nat.odd_succ.
    rewrite <- Nat.negb_odd. now destruct (Nat.odd n), (isFlipped c).
Qed.

(** A right-click leaves the long-press timer alone. *)
Lemma rightClicks_timer n c :
  longPressTimer (rightClicks n c) = longPressTimer c
  /\ timers (rightClicks n c) = timers c.
Proof.
  induction n as [|n IH]; [easy|]. rewrite rightClicks_S. exact IH.
Qed.

Lemma shown_render p c :
  shown (render p c) = if isFlipped c then MoralSide else StorySide.
Proof. unfold shown, render. simpl. now destruct (isFlipped c). Qed.

(** C9. A card mounts showing the story side ([isFlipped] is false); every
    right-click toggles [isFlipped], so two right-clicks in a row give the
    state back; and after [n] right-clicks from the mount the card shows the
    story side when [n] is even and the moral side when [n] is odd. *)
Theorem right_click_parity :
  isFlipped mount = false
  /\ (forall p, shown (render p mount) = StorySide)
  /\ (forall c, isFlipped (step c ContextMenu) = negb (isFlipped c))
  /\ (forall c, step (step c ContextMenu) ContextMenu = c)
  /\ (forall n, isFlipped (rightClicks n mount) = Nat.odd n)
  /\ (forall p n,
        shown (render p (rightClicks n mount))
        = if Nat.even n then StorySide else MoralSide).
Proof.
  split; [reflexivity|]. split; [reflexivity|].
  split; [intros c; apply handleContextMenu_flips|].
  split; [intros c; apply handleContextMenu_twice|].
  assert (H : forall n, isFlipped (rightClicks n mount) = Nat.odd n).
  { intros n. rewrite rightClicks_flipped. simpl. apply xorb_false_r. }
  split; [exact H|].
  intros p n. rewrite shown_render, H, <- Nat.negb_even.
  now destruct (Nat.even n).
Qed.

End FlipCardFacts.

(** ** The orchestration core *)

Module CoreFacts.
Import Core.
Local Open Scope string_scope.
Local Open Scope nat_scope.

Section Router.

Variable matches_farewell : text -> bool.
Variable matches_greeting : text -> bool.
Variable names_classic : text -> bool.
Variable refers_to_modification : text -> bool.

Let classify := classify matches_farewell matches_greeting names_classic
                  refers_to_modification.

(** Without a live story the modification step is skipped, whatever the
    input looks like. *)
Lemma classify_no_live_story user_input :
  classify user_input false
  = if matches_farewell user_input then Farewell
    else if matches_greeting user_input then Greeting
    else if names_classic user_input then RetrieveClassic user_input
    else NewStory user_input.
Proof.
  unfold classify, Core.classify.
  now destruct (matches_farewell user_input), (matches_greeting user_input),
    (names_classic user_input).
Qed.

(** [ModifyStory] comes out only on a thread with a live story. *)
Lemma classify_modify_needs_live_story user_input live h :
  classify user_input live = ModifyStory h -> live = true.
Proof.
  unfold classify, Core.classify.
  destruct (matches_farewell user_input); [discriminate|].
  destruct (matches_greeting user_input); [discriminate|].
  destruct (names_classic user_input); [discriminate|].
  destruct live; [reflexivity|discriminate].
Qed.

End Router.

(** C3. On a thread with no live story the router never answers
    [ModifyStory]; an input that is no farewell, no greeting and names no
    classic is classified [NewStory] with the input as its theme hint,
    whether or not it is phrased as a modification. *)
Theorem no_live_story_never_modify :
  forall (matches_farewell matches_greeting names_classic
            refers_to_modification : text -> bool)
         (user_input : text) (thread : ConversationThread),
    has_live_story thread = false ->
    (forall h,
        route matches_farewell matches_greeting names_classic
          refers_to_modification user_input thread <> ModifyStory h)
    /\ (matches_farewell user_input = false ->
        matches_greeting user_input = false ->
        names_classic user_input = false ->
        route matches_farewell matches_greeting names_classic
          refers_to_modification user_input thread = NewStory user_input).
Proof.
  intros mf mg nc rm user_input thread Hlive. unfold route. rewrite Hlive.
  split.
  - intros h H. apply classify_modify_needs_live_story in H. discriminate.
  - intros Hf Hg Hc. rewrite classify_no_live_story. now rewrite Hf, Hg, Hc.
Qed.

(** A router that takes inputs starting with "make " for modifications and
    the word "goodnight" for a farewell. *)
Lemma no_live_story_never_modify_witness :
  has_live_story empty_thread = false
  /\ String.prefix "make " "make the hero braver" = true
  /\ route (String.eqb "goodnight") (String.eqb "hello") (String.eqb "cinderella")
       (String.prefix "make ") "make the hero braver" empty_thread
     = NewStory "make the hero braver".
Proof.
  split; [reflexivity|]. split; [reflexivity|].
  apply (no_live_story_never_modify (String.eqb "goodnight") (String.eqb "hello")
           (String.eqb "cinderella") (String.prefix "make ")
           "make the hero braver" empty_thread);
    reflexivity.
Defined.

Section Loop.

Variable cfg : Config.
Variable complete : nat -> Prompt -> text * text.
Variable validate : StoryDraft -> ValidationVerdict.
Variable request_hint : text.
Variable request_prior : option Story.
Variable request_tier : LengthTier.

Let step := step cfg complete validate request_hint request_prior request_tier.
Let trace := trace cfg complete validate request_hint request_prior request_tier.
Let final := final cfg complete validate request_hint request_prior request_tier.

Lemma trace_step fuel s s' :
  step s = Some s' -> trace (S fuel) s = s :: trace fuel s'.
Proof. intros H. unfold trace, step in *. simpl. now rewrite H. Qed.

Lemma final_step fuel s s' :
  step s = Some s' -> final (S fuel) s = final fuel s'.
Proof. intros H. unfold final, step in *. simpl. now rewrite H. Qed.

Lemma trace_stuck fuel s : step s = None -> trace fuel s = [s].
Proof.
  intros H. unfold trace, step in *. destruct fuel; simpl; [easy|]. now rewrite H.
Qed.

Lemma final_stuck fuel s : step s = None -> final fuel s = s.
Proof.
  intros H. unfold final, step in *. destruct fuel; simpl; [easy|]. now rewrite H.
Qed.

(** The trace ends in the state the loop is left in. *)
Lemma last_trace fuel : forall s, list.last (trace fuel s) = Some (final fuel s).
Proof.
  induction fuel as [|fuel IH]; intros s; [reflexivity|].
  destruct (step s) as [s'|] eqn:E.
  - rewrite (trace_step _ _ _ E), (final_step _ _ _ E), <- IH.
    unfold trace. now destruct fuel.
  - now rewrite (trace_stuck _ _ E), (final_stuck _ _ E).
Qed.

(** [Drafting] always yields a draft, and counts it. *)
Lemma step_drafting n gathered fix_text :
  exists d, step (Drafting n gathered fix_text) = Some (Validating d)
            /\ attempt_count d = S n.
Proof.
  unfold step, Core.step.
  destruct (complete n _) as [t b]. eexists. split; reflexivity.
Qed.

Section AlwaysRejected.

Hypothesis always_rejects : forall d, accepted (validate d) = false.

Lemma step_validating_retry d :
  attempt_count d < max_iterations cfg ->
  step (Validating d) = Some (Retrying d (validate d)).
Proof.
  intros H. unfold step, Core.step. rewrite always_rejects.
  apply Nat.ltb_lt in H. now rewrite H.
Qed.

Lemma step_validating_exhausted d :
  attempt_count d = max_iterations cfg ->
  step (Validating d) = Some (Exhausted d).
Proof.
  intros H. unfold step, Core.step. rewrite always_rejects.
  rewrite H, Nat.ltb_irrefl. now rewrite Nat.eqb_refl.
Qed.

(** From [Drafting] with [k] attempts made and [n] retries left, the loop
    makes attempts [k+1 .. k+n+1], retries [n] times and is exhausted. *)
Lemma exhausts_from n :
  forall k gathered fix_text fuel,
    S k + n = max_iterations cfg ->
    3 * S n <= fuel ->
    (exists d, final fuel (Drafting k gathered fix_text) = Exhausted d
               /\ attempt_count d = max_iterations cfg)
    /\ map attempt_count (drafts (trace fuel (Drafting k gathered fix_text)))
       = seq (S k) (S n)
    /\ retries (trace fuel (Drafting k gathered fix_text)) = n.
Proof.
  induction n as [|n IH]; intros k gathered fix_text fuel Hk Hfuel.
  - destruct (step_drafting k gathered fix_text) as (d & Hd & Hcount).
    assert (Hx : step (Validating d) = Some (Exhausted d))
      by (apply step_validating_exhausted; lia).
    destruct fuel as [|[|fuel]]; [lia|lia|].
    rewrite (final_step _ _ _ Hd), (final_step _ _ _ Hx).
    rewrite (trace_step _ _ _ Hd), (trace_step _ _ _ Hx).
    rewrite (final_stuck _ (Exhausted d)), (trace_stuck _ (Exhausted d))
      by reflexivity.
    split; [exists d; split; [reflexivity|lia]|].
    split; [simpl; now rewrite Hcount|reflexivity].
  - destruct (step_drafting k gathered fix_text) as (d & Hd & Hcount).
    assert (Hr : step (Validating d) = Some (Retrying d (validate d)))
      by (apply step_validating_retry; lia).
    assert (Hb : step (Retrying d (validate d))
                 = Some (Drafting (attempt_count d)
                           (rejection_reasons d ++ reasons (validate d))
                           (suggested_fix (validate d))))
      by reflexivity.
    destruct fuel as [|[|[|fuel]]]; [lia|lia|lia|].
    rewrite (final_step _ _ _ Hd), (final_step _ _ _ Hr), (final_step _ _ _ Hb).
    rewrite (trace_step _ _ _ Hd), (trace_step _ _ _ Hr), (trace_step _ _ _ Hb).
    rewrite Hcount.
    destruct (IH (S k) (rejection_reasons d ++ reasons (validate d))%list
                (suggested_fix (validate d)) fuel) as (Hfin & Hdrafts & Hretries);
      [lia|lia|].
    split; [exact Hfin|]. split.
    + change (attempt_count d :: map attempt_count (drafts (trace fuel
               (Drafting (S k) (rejection_reasons d ++ reasons (validate d))
                  (suggested_fix (validate d)))))
              = seq (S k) (S (S n))).
      rewrite Hdrafts, Hcount. reflexivity.
    + change (S (retries (trace fuel
               (Drafting (S k) (rejection_reasons d ++ reasons (validate d))
                  (suggested_fix (validate d))))) = S n).
      now rewrite Hretries.
Qed.

End AlwaysRejected.

End Loop.

(** C1. With [max_iterations] = N >= 1 and a validator that rejects every
    draft, the loop started with [attempt_count] 0 makes exactly N generation
    attempts, numbered 1 to N, retries N - 1 times and ends in [Exhausted]
    with [attempt_count] = N; with N = 1 that is one attempt and no retry. *)
Theorem retry_bound_always_rejected :
  forall cfg complete validate request_hint request_prior request_tier fuel,
    1 <= max_iterations cfg ->
    (forall d, accepted (validate d) = false) ->
    3 * max_iterations cfg <= fuel ->
    let tr := trace cfg complete validate request_hint request_prior
                request_tier fuel initial in
    map attempt_count (drafts tr) = seq 1 (max_iterations cfg)
    /\ length (drafts tr) = max_iterations cfg
    /\ retries tr = max_iterations cfg - 1
    /\ exists d, list.last tr = Some (Exhausted d)
                 /\ attempt_count d = max_iterations cfg.
Proof.
  intros cfg complete validate h p t fuel Hpos Hrej Hfuel tr.
  destruct (exhausts_from cfg complete validate h p t Hrej
              (max_iterations cfg - 1) 0 [] None fuel)
    as ((d & Hfin & Hcount) & Hdrafts & Hretries); [lia|lia|].
  replace (S (max_iterations cfg - 1)) with (max_iterations cfg) in Hdrafts by lia.
  split; [exact Hdrafts|].
  split; [rewrite <- (length_map attempt_count); subst tr; unfold initial;
          rewrite Hdrafts; apply length_seq|].
  split; [exact Hretries|].
  exists d. split; [|exact Hcount].
  subst tr. rewrite last_trace. unfold initial. now rewrite Hfin.
Qed.

Lemma retry_bound_always_rejected_witness :
  1 <= max_iterations single_attempt
  /\ length (drafts (trace single_attempt same_tale always_reject
                       "a cave" None medium 3 initial)) = 1
  /\ retries (trace single_attempt same_tale always_reject
                "a cave" None medium 3 initial) = 0.
Proof.
  split; [simpl; lia|].
  pose proof (retry_bound_always_rejected single_attempt same_tale always_reject
                "a cave" None medium 3) as H.
  cbv zeta in H.
  destruct H as (_ & H2 & H3 & _); [simpl; lia|reflexivity|simpl; lia|].
  split; [exact H2|exact H3].
Defined.





End CoreFacts.

(** ** The chat client *)

Module AppFacts.
Import JS App JSFacts.

(** *** The submit handler *)

Lemma handleSubmit_blank now st :
  trim (input st) = [] -> handleSubmit now st = (st, None).
Proof. unfold handleSubmit. now intros ->. Qed.

Lemma handleSubmit_busy now st :
  isGenerating st = true -> handleSubmit now st = (st, None).
Proof. unfold handleSubmit. intros ->. now rewrite orb_true_r. Qed.

(** What the handler does when it gets past its guard. *)
Lemma handleSubmit_request now st st' rq :
  handleSubmit now st = (st', Some rq) ->
  truthy (trim (input st)) = true
  /\ isGenerating st = false
  /\ rq = {| user_input := trim (input st);
             length_tier := Some medium;
             req_thread_id := or_undefined (threadId st) |}
  /\ st' = {| messages := messages st
                ++ [{| id := toString now; role := user;
                       content := trim (input st); story := None |}];
              input := [];
              isGenerating := true;
              showWelcome := showWelcome st;
              threadId := threadId st |}.
Proof.
  unfold handleSubmit.
  destruct (truthy (trim (input st))) eqn:Et; simpl; [|discriminate].
  destruct (isGenerating st) eqn:Eg; simpl; [discriminate|].
  intros H. injection H as <- <-. repeat split.
Qed.

Lemma handleSubmit_none now st st' :
  handleSubmit now st = (st', None) -> st' = st.
Proof.
  unfold handleSubmit.
  destruct (negb (truthy (trim (input st))) || isGenerating st); simpl.
  - now intros [= <-].
  - discriminate.
Qed.

(** Whatever the POST did, the handler ends with [isGenerating] false. *)
Lemma handleSubmit_resume_idle now r st :
  isGenerating (fst (handleSubmit_resume now r st)) = false.
Proof.
  unfold handleSubmit_resume.
  destruct (generateStoryFromBackend_settle r st) as [[[sd|e] st1] logged];
    reflexivity.
Qed.

(** The thread id after a reply: the reply's when it has one, else the old. *)
Lemma handleSubmit_resume_threadId now r st :
  threadId (fst (handleSubmit_resume now r st))
  = match r with
    | Fulfilled response =>
        if truthy_opt (thread_id response) then thread_id response
        else threadId st
    | Rejected _ => threadId st
    end.
Proof.
  unfold handleSubmit_resume, generateStoryFromBackend_settle.
  destruct r as [response|e]; [|reflexivity].
  destruct (truthy_opt (thread_id response));
    destruct (if success response then or_undefined (Api.story response) else None);
    try destruct (truthy_opt (Api.title response)); reflexivity.
Qed.

Lemma step_submit_ignored w now :
  handleSubmit now (app w) = (app w, None) -> step w (Submit now) = w.
Proof. intros H. simpl. rewrite H. now destruct w. Qed.

(** *** One request at a time *)

Lemma single_start : single start.
Proof. split; simpl; [easy|lia]. Qed.

Lemma single_delete (w : World) i request :
  single w -> outstanding w !! i = Some request -> delete i (outstanding w) = [].
Proof.
  intros [_ Hlen] Hi.
  destruct (outstanding w) as [|a [|b l]]; simpl in *; [easy| |lia].
  destruct i; [reflexivity|discriminate].
Qed.

Lemma step_single w ev : single w -> single (step w ev).
Proof.
  intros Hs. destruct ev as [value|now|i now post|]; simpl.
  - exact Hs.
  - destruct (handleSubmit now (app w)) as [st [rq|]] eqn:E.
    + apply handleSubmit_request in E as (_ & Hidle & _ & ->).
      destruct Hs as [Hnone _]. rewrite (Hnone Hidle).
      split; simpl; [discriminate|lia].
    + apply handleSubmit_none in E as ->. exact Hs.
  - destruct (outstanding w !! i) as [request|] eqn:Ei; [|exact Hs].
    destruct (handleSubmit_resume now _ (app w)) as [st logged] eqn:E.
    simpl. rewrite (single_delete w i request Hs Ei).
    split; simpl; [easy|lia].
  - exact Hs.
Qed.

Lemma run_single w evs : single w -> single (run w evs).
Proof.
  revert w. induction evs as [|ev evs IH]; intros w Hs; [exact Hs|].
  apply (IH (step w ev)), step_single, Hs.
Qed.

(** C8. In every state the client can reach, a submit that finds
    [isGenerating] true changes nothing: no request is issued and the
    messages, the input text and everything else stay as they are.
    [isGenerating] is true whenever a request is under way, and there is
    never more than one under way. *)
Theorem submit_while_generating_changes_nothing :
  forall evs now,
    let w := run start evs in
    (isGenerating (app w) = true -> step w (Submit now) = w)
    /\ (outstanding w <> [] -> isGenerating (app w) = true)
    /\ (length (outstanding w) <= 1)%nat.
Proof.
  intros evs now w. split; [|split].
  - intros Hbusy. apply step_submit_ignored, handleSubmit_busy, Hbusy.
  - intros Hne. destruct (run_single start evs single_start) as [Hnone _].
    fold w in Hnone. destruct (isGenerating (app w)); [reflexivity|].
    now destruct Hne; apply Hnone.
  - apply (run_single start evs single_start).
Qed.

Lemma submit_while_generating_changes_nothing_witness :
  isGenerating (app (run start [Change (lit "a shy owl"); Submit 1000])) = true
  /\ step (run start [Change (lit "a shy owl"); Submit 1000]) (Submit 1001)
     = run start [Change (lit "a shy owl"); Submit 1000].
Proof.
  split; [reflexivity|].
  apply (submit_while_generating_changes_nothing
           [Change (lit "a shy owl"); Submit 1000] 1001).
  reflexivity.
Defined.

(** *** Blank input *)

Lemma step_sent w ev :
  sent (step w ev) = sent w
  \/ exists now st rq,
       ev = Submit now /\ handleSubmit now (app w) = (st, Some rq)
       /\ sent (step w ev) = sent w ++ [rq].
Proof.
  destruct ev as [value|now|i now post|]; simpl; auto.
  - destruct (handleSubmit now (app w)) as [st [rq|]] eqn:E; simpl; [|auto].
    right. now exists now, st, rq.
  - destruct (outstanding w !! i); [|auto].
    now destruct (handleSubmit_resume now _ (app w)); auto.
Qed.

Lemma step_well_formed w ev :
  Forall well_formed (sent w) -> Forall well_formed (sent (step w ev)).
Proof.
  intros H. destruct (step_sent w ev) as [->|(now & st & rq & _ & E & ->)];
    [exact H|].
  apply Forall_app. split; [exact H|]. constructor; [|constructor].
  apply handleSubmit_request in E as (Ht & _ & -> & _). unfold well_formed.
  simpl. now rewrite trim_idem.
Qed.

Lemma run_well_formed evs :
  forall w, Forall well_formed (sent w) -> Forall well_formed (sent (run w evs)).
Proof.
  induction evs as [|ev evs IH]; intros w H; [exact H|].
  apply (IH (step w ev)), step_well_formed, H.
Qed.

(** C5. A submit whose input is empty or made of white space only issues no
    request: the handler returns at its guard and the client is left as it
    was, in the full client and in the simple one alike.  Hence every request
    the client ever sends carries a [user_input] that is trimmed and not
    empty. *)
Theorem blank_input_sends_nothing :
  (forall w now, blank (input (app w)) = true -> step w (Submit now) = w)
  /\ (forall st now,
        blank (AppSimple.input st) = true ->
        AppSimple.handleSubmit now st = (st, false))
  /\ (forall evs, Forall well_formed (sent (run start evs))).
Proof.
  split; [|split].
  - intros w now H. apply trim_nil_iff in H.
    apply step_submit_ignored, handleSubmit_blank, H.
  - intros st now H. apply trim_nil_iff in H.
    unfold AppSimple.handleSubmit. now rewrite H.
  - intros evs. apply run_well_formed. constructor.
Qed.

Lemma blank_input_sends_nothing_witness :
  blank (lit "   ") = true
  /\ sent (step (run start [Change (lit "   ")]) (Submit 1000)) = []
  /\ AppSimple.handleSubmit 1000
       {| AppSimple.messages := []; AppSimple.input := [0x09; 0xA0; 0x3000];
          AppSimple.isGenerating := false |}
     = ({| AppSimple.messages := []; AppSimple.input := [0x09; 0xA0; 0x3000];
           AppSimple.isGenerating := false |}, false).
Proof.
  split; [reflexivity|]. split.
  - rewrite (proj1 blank_input_sends_nothing (run start [Change (lit "   ")]) 1000);
      reflexivity.
  - apply (proj1 (proj2 blank_input_sends_nothing)). reflexivity.
Defined.

(** *** Replies *)

(** A reply delivered for the [i]-th request under way. *)
Lemma step_settle w i now post request :
  outstanding w !! i = Some request ->
  step w (Settle i now post)
  = {| app := fst (handleSubmit_resume now (generateStory (fun _ => post) request) (app w));
       outstanding := delete i (outstanding w);
       sent := sent w;
       console := console w
                  ++ snd (handleSubmit_resume now
                            (generateStory (fun _ => post) request) (app w)) |}.
Proof.
  intros H. simpl. rewrite H.
  now destruct (handleSubmit_resume now _ (app w)).
Qed.

Lemma render_app st m :
  render (setMessages (fun prev => prev ++ [m]) st) = render st ++ [renderMessage m].
Proof. unfold render. simpl. now rewrite map_app. Qed.

(** On a failure [generateStoryFromBackend] rejects and leaves the messages
    alone. *)
Lemma settle_failure post request st :
  failure post ->
  exists e st1,
    generateStoryFromBackend_settle (generateStory (fun _ => post) request) st
    = (Rejected e, st1, [e])
    /\ messages st1 = messages st.
Proof.
  destruct post as [response|e]; simpl.
  - intros H.
    assert (E : (if success response then or_undefined (Api.story response) else None)
                = None).
    { destruct H as [->| H]; [reflexivity|].
      destruct (success response); [|reflexivity].
      destruct (Api.story response) as [s|]; [|reflexivity].
      simpl in *. now rewrite H. }
    unfold generateStory. simpl. rewrite E.
    destruct (truthy_opt (thread_id response)); eauto.
  - intros _. unfold generateStory. simpl.
    destruct (isAxiosError e); simpl; eauto.
Qed.

(** C7. When a generation request fails (the POST is rejected, the reply
    says [success: false], or it has no story text) the conversation gains
    one assistant bubble whose text is the fixed apology and nothing else:
    the rendered conversation is the same whatever was thrown, and the error
    goes to the console only. *)
Theorem failure_shows_fixed_apology :
  forall w i now post request,
    outstanding w !! i = Some request ->
    failure post ->
    let w' := step w (Settle i now post) in
    messages (app w')
    = messages (app w)
      ++ [{| id := toString (now + 1); role := assistant;
             content := apology; story := None |}]
    /\ render (app w') = render (app w) ++ [AssistantBubble apology]
    /\ isGenerating (app w') = false
    /\ exists e, console w' = console w ++ [e].
Proof.
  intros w i now post request Hi Hfail w'. subst w'.
  rewrite (step_settle _ _ _ _ _ Hi). simpl.
  unfold handleSubmit_resume.
  destruct (settle_failure post request (app w) Hfail) as (e & st1 & -> & Hm).
  simpl. unfold render. simpl. rewrite Hm, map_app. simpl.
  repeat split. now exists e.
Qed.

Lemma failure_shows_fixed_apology_witness :
  render (app (step (run start [Change (lit "a shy owl"); Submit 1000])
                 (Settle 0 3000
                    (Rejected {| isAxiosError := true; detail := None;
                                 message := lit "Network Error" |}))))
  = [UserBubble (lit "a shy owl"); AssistantBubble apology].
Proof.
  apply (failure_shows_fixed_apology
           (run start [Change (lit "a shy owl"); Submit 1000]) 0 3000
           (Rejected {| isAxiosError := true; detail := None;
                        message := lit "Network Error" |})
           {| user_input := lit "a shy owl"; length_tier := Some medium;
              req_thread_id := None |});
    [reflexivity|exact I].
Defined.

(** C4. A reply with [success] true and a non-empty [story] adds one
    assistant bubble to the conversation.  It is a flip card exactly when
    the reply's [title] is there and not empty, and the card then shows that
    title, the story text and the moral (empty when the reply has none);
    otherwise it is a plain bubble holding the story field's text. *)
Theorem title_decides_flip_card :
  forall w i now response request story_text,
    outstanding w !! i = Some request ->
    success response = true ->
    Api.story response = Some story_text ->
    truthy story_text = true ->
    let w' := step w (Settle i now (Fulfilled response)) in
    exists b,
      render (app w') = render (app w) ++ [b]
      /\ isFlipCard b = truthy_opt (Api.title response)
      /\ (forall t,
            Api.title response = Some t -> truthy t = true ->
            b = FlipCardOf {| FlipCard.title := t;
                              FlipCard.story := story_text;
                              FlipCard.moral := or_else (Api.moral response) [] |})
      /\ (truthy_opt (Api.title response) = false -> b = AssistantBubble story_text).
Proof.
  intros w i now response request story_text Hi Hok Hstory Htext w'. subst w'.
  rewrite (step_settle _ _ _ _ _ Hi). simpl.
  unfold generateStory, handleSubmit_resume, generateStoryFromBackend_settle.
  simpl. rewrite Hok, Hstory. simpl. rewrite Htext.
  assert (Hr : forall st1 m,
             messages st1 = messages (app w) ->
             render (setMessages (fun prev => prev ++ [m]) st1)
             = render (app w) ++ [renderMessage m]).
  { intros st1 m Hm. rewrite render_app. unfold render. now rewrite Hm. }
  assert (Hm : messages (if truthy_opt (thread_id response)
                         then setThreadId (thread_id response) (app w)
                         else app w) = messages (app w))
    by now destruct (truthy_opt (thread_id response)).
  destruct (Api.title response) as [t|] eqn:Et; simpl.
  - destruct (truthy t) eqn:Ett; simpl.
    + eexists. split; [apply Hr, Hm|]. simpl. rewrite Ett.
      unfold or_str. rewrite Htext.
      split; [reflexivity|]. split; [|discriminate].
      now intros t' [= <-] _.
    + eexists. split; [apply Hr, Hm|]. simpl.
      split; [reflexivity|]. split; [|reflexivity].
      intros t' [= <-] Ht'. congruence.
  - eexists. split; [apply Hr, Hm|]. simpl.
    split; [reflexivity|]. split; [discriminate|reflexivity].
Qed.

Lemma title_decides_flip_card_witness :
  exists b,
    render (app (step (run start [Change (lit "a shy owl"); Submit 1000])
                   (Settle 0 3000
                      (Fulfilled {| success := true;
                                    Api.story := Some (lit "Sweet dreams!");
                                    Api.title := None; Api.moral := None;
                                    error := None;
                                    thread_id := Some (lit "t-1") |}))))
    = render (app (run start [Change (lit "a shy owl"); Submit 1000])) ++ [b]
    /\ b = AssistantBubble (lit "Sweet dreams!").
Proof.
  destruct (title_decides_flip_card
              (run start [Change (lit "a shy owl"); Submit 1000]) 0 3000
              {| success := true; Api.story := Some (lit "Sweet dreams!");
                 Api.title := None; Api.moral := None; error := None;
                 thread_id := Some (lit "t-1") |}
              {| user_input := lit "a shy owl"; length_tier := Some medium;
                 req_thread_id := None |}
              (lit "Sweet dreams!"))
    as (b & Hr & _ & _ & Hb); [reflexivity..|].
  exists b. split; [exact Hr|]. apply Hb. reflexivity.
Defined.

(** *** The conversation's thread *)








End AppFacts.

(** * Further properties of the client *)

(** ** Strings *)

Module JSMore.
Import JS JSFacts.

Lemma lit_inj a b : lit a = lit b -> a = b.
Proof.
  unfold lit. intros H.
  rewrite <- (string_of_list_ascii_of_string a), <- (string_of_list_ascii_of_string b).
  f_equal. revert H.
  generalize (list_ascii_of_string a) (list_ascii_of_string b).
  induction l as [|x l IH]; intros [|y l']; simpl; try discriminate; [easy|].
  intros [= Hxy Hl]. f_equal; [|now apply IH].
  now rewrite <- (ascii_N_embedding x), <- (ascii_N_embedding y), Hxy.
Qed.

Lemma to_uint_not_Nil n : N.to_uint n <> Decimal.Nil.
Proof.
  intros H. pose proof (DecimalN.Unsigned.of_to n) as E. rewrite H in E.
  simpl in E. subst n. discriminate.
Qed.

(** Two numbers with the same decimal rendering are the same number. *)
Lemma toString_inj a b : toString a = toString b -> a = b.
Proof.
  unfold toString. intros H. apply lit_inj in H.
  apply DecimalN.Unsigned.to_uint_inj.
  apply (f_equal NilZero.uint_of_string) in H.
  rewrite !NilZero.usu in H by apply to_uint_not_Nil.
  now injection H.
Qed.

Lemma trimStart_app_blank lead s :
  blank lead = true -> trimStart (lead ++ s) = trimStart s.
Proof.
  induction lead as [|c r IH]; simpl; [easy|].
  destruct (isWhiteSpace c); simpl; [exact IH|discriminate].
Qed.

Lemma trimEnd_app_blank s trail :
  blank trail = true -> trimEnd (s ++ trail) = trimEnd s.
Proof.
  intros H. unfold trimEnd. rewrite rev_app_distr.
  rewrite trimStart_app_blank; [reflexivity|]. now rewrite blank_rev.
Qed.

(** [trim] takes the white space around a core away and gives the core. *)
Lemma trim_core lead core trail :
  blank lead = true -> blank trail = true ->
  no_lead_ws core -> no_trail_ws core ->
  trim (lead ++ core ++ trail) = core.
Proof.
  intros Hl Ht Hc Hr. unfold trim.
  rewrite trimStart_app_blank by exact Hl.
  destruct core as [|c core'].
  - simpl. now rewrite (trimStart_blank trail Ht).
  - simpl in Hc. simpl. rewrite Hc.
    change (c :: core' ++ trail) with ((c :: core') ++ trail).
    rewrite trimEnd_app_blank by exact Ht.
    unfold trimEnd. rewrite (trimStart_fix _ Hr). apply rev_involutive.
Qed.

Lemma strict_eq_iff a b : strict_eq a b = true <-> a = b.
Proof. unfold strict_eq. now destruct (List.list_eq_dec N.eq_dec a b). Qed.

End JSMore.

(** ** The API wrapper *)

Module ApiMore.
Import JS Api JSMore.

(** X1. [healthCheck] never rejects, and it answers [true] exactly when the
    GET was fulfilled with a body whose [status] is the string "healthy";
    a failed GET, a missing body or any other status give [false]. *)
Theorem healthCheck_true_iff_healthy :
  forall get,
    exists b,
      healthCheck get = Fulfilled b
      /\ (b = true <-> get = Fulfilled (Some {| status := Some (lit "healthy") |})).
Proof.
  intros [[[[s|]]|]|e]; unfold healthCheck, try_catch, await.
  - exists (strict_eq s (lit "healthy")). split; [reflexivity|].
    rewrite strict_eq_iff. split; [now intros ->|now intros [= ->]].
  - exists false. split; [reflexivity|]. split; discriminate.
  - exists false. split; [reflexivity|]. split; discriminate.
  - exists false. split; [reflexivity|]. split; discriminate.
Qed.

End ApiMore.

(** ** The flip card's long press *)

Module FlipCardMore.
Import FlipCard.

Lemma tidy_mount : tidy mount.
Proof. split; [discriminate|now left]. Qed.

(** After a touch start exactly one timer is pending: the new one, set to
    turn the card over from the side it shows now. *)
Lemma touchStart_pending c :
  tidy c ->
  pending (timers (handleTouchStart c))
  = [(next_handle (timers c), negb (isFlipped c))].
Proof.
  intros [Hold Hpend]. unfold handleTouchStart. simpl.
  destruct (longPressTimer c) as [old|] eqn:El; simpl.
  - assert (Hlt : (old < next_handle (timers c))%nat) by now apply Hold.
    assert (Hne : Nat.eqb (next_handle (timers c)) old = false)
      by (apply Nat.eqb_neq; lia).
    destruct Hpend as [->|(h & v & -> & [= ->])]; simpl.
    + now rewrite Hne.
    + now rewrite Nat.eqb_refl, Hne.
  - destruct Hpend as [->|(h & v & _ & [=])]. reflexivity.
Qed.

Lemma step_tidy c ev : tidy c -> tidy (step c ev).
Proof.
  intros Ht. destruct ev as [| | |h]; simpl.
  - exact Ht.
  - split.
    + intros h [= <-]. unfold handleTouchStart. simpl.
      destruct (longPressTimer c); simpl; lia.
    + right. exists (next_handle (timers c)), (negb (isFlipped c)).
      split; [now apply touchStart_pending|reflexivity].
  - unfold handleTouchEnd. destruct (longPressTimer c) as [h|] eqn:El; [|exact Ht].
    split; [discriminate|]. left. simpl.
    destruct Ht as [_ [->|(h' & v & -> & E)]]; [reflexivity|].
    rewrite El in E. injection E as ->. simpl. now rewrite Nat.eqb_refl.
  - unfold timeout.
    destruct (find _ (pending (timers c))) as [[h' v]|] eqn:Ef; [|exact Ht].
    destruct Ht as [Hold [Hp|(h0 & v0 & Hp & El)]]; rewrite Hp in Ef; simpl in Ef;
      [discriminate|].
    destruct (Nat.eqb h0 h) eqn:Eh; [|discriminate].
    split; [exact Hold|]. left. simpl. rewrite Hp. simpl. now rewrite Eh.
Qed.

Lemma run_tidy evs : forall c, tidy c -> tidy (run c evs).
Proof.
  induction evs as [|ev evs IH]; intros c Ht; [exact Ht|].
  apply (IH (step c ev)), step_tidy, Ht.
Qed.

Lemma rightClicks_pending n c : timers (rightClicks n c) = timers c.
Proof. induction n as [|n IH]; [reflexivity|exact IH]. Qed.

(** X2. A long press turns the card over: whatever happened to the card
    before, when a touch starts and its timer fires, the card shows the side
    opposite to the one it showed when the touch started.  Right-clicks made
    while the timer is pending do not add to that: the timer's callback sets
    the side it computed at the touch start. *)
Theorem long_press_flips :
  forall evs n,
    let c := run mount evs in
    let timer := next_handle (timers c) in
    longPressTimer (step c TouchStart) = Some timer
    /\ isFlipped (step (rightClicks n (step c TouchStart)) (Timeout timer))
       = negb (isFlipped c)
    /\ pending (timers (step (rightClicks n (step c TouchStart)) (Timeout timer)))
       = [].
Proof.
  intros evs n c timer.
  assert (Hp : pending (timers (rightClicks n (step c TouchStart)))
               = [(timer, negb (isFlipped c))]).
  { rewrite rightClicks_pending. apply touchStart_pending, run_tidy, tidy_mount. }
  split; [reflexivity|].
  unfold step at 1 3, timeout. rewrite Hp. simpl. rewrite Nat.eqb_refl.
  split; [reflexivity|].
  change (step c TouchStart) with (handleTouchStart c) in Hp.
  simpl. rewrite Hp. simpl. now rewrite Nat.eqb_refl.
Qed.

(** X3. At most one long-press timer is pending at any time, and lifting
    the finger cancels it: after a touch end no timer is left, so no timer
    can fire later and a tap shorter than the delay leaves the card on the
    side it showed. *)
Theorem tap_never_flips :
  forall evs h,
    let c := run mount evs in
    (length (pending (timers c)) <= 1)%nat
    /\ pending (timers (step c TouchEnd)) = []
    /\ isFlipped (step (step c TouchStart) TouchEnd) = isFlipped c
    /\ step (step (step c TouchStart) TouchEnd) (Timeout h)
       = step (step c TouchStart) TouchEnd.
Proof.
  intros evs h c.
  assert (Ht : tidy c) by apply run_tidy, tidy_mount.
  assert (Hend : forall c', tidy c' -> pending (timers (step c' TouchEnd)) = []).
  { intros c' [_ Hp]. simpl. unfold handleTouchEnd.
    destruct (longPressTimer c') as [h'|] eqn:El.
    - simpl. destruct Hp as [->|(h0 & v & -> & [= ->])]; [reflexivity|].
      simpl. now rewrite Nat.eqb_refl.
    - now destruct Hp as [->|(h0 & v & _ & [=])]. }
  split; [|split; [|split]].
  - destruct Ht as [_ [->|(h0 & v & -> & _)]]; simpl; lia.
  - now apply Hend.
  - reflexivity.
  - assert (Hp := Hend (step c TouchStart) (step_tidy c TouchStart Ht)).
    remember (step (step c TouchStart) TouchEnd) as c2.
    change (step c2 (Timeout h)) with (timeout h c2).
    unfold timeout. now rewrite Hp.
Qed.

End FlipCardMore.

(** ** The chat client, turn by turn *)

Module AppMore.
Import JS App JSFacts JSMore AppFacts.

(** The reply handler adds exactly one message, from the assistant, with the
    clock reading plus one as its id. *)
Lemma handleSubmit_resume_messages now r st :
  exists m,
    messages (fst (handleSubmit_resume now r st)) = messages st ++ [m]
    /\ role m = assistant
    /\ id m = toString (now + 1).
Proof.
  unfold handleSubmit_resume, generateStoryFromBackend_settle.
  destruct r as [response|e]; [|eexists; simpl; eauto].
  destruct (truthy_opt (thread_id response));
    destruct (if success response then or_undefined (Api.story response) else None);
    try destruct (truthy_opt (Api.title response));
    eexists; simpl; eauto.
Qed.

Lemma handleSubmit_resume_showWelcome now r st :
  showWelcome (fst (handleSubmit_resume now r st)) = showWelcome st.
Proof.
  unfold handleSubmit_resume, generateStoryFromBackend_settle.
  destruct r as [response|e]; [|reflexivity].
  destruct (truthy_opt (thread_id response));
    destruct (if success response then or_undefined (Api.story response) else None);
    try destruct (truthy_opt (Api.title response)); reflexivity.
Qed.

(** What one event does to the message list: nothing, or one message more. *)
Lemma step_messages w ev :
  messages (app (step w ev)) = messages (app w)
  \/ exists m, messages (app (step w ev)) = messages (app w) ++ [m].
Proof.
  destruct ev as [value|now|i now post|]; simpl; auto.
  - destruct (handleSubmit now (app w)) as [st [rq|]] eqn:E.
    + apply handleSubmit_request in E as (_ & _ & _ & ->). simpl. eauto.
    + apply handleSubmit_none in E as ->. auto.
  - destruct (outstanding w !! i) as [request|] eqn:Ei; [|auto].
    destruct (handleSubmit_resume_messages now
                (generateStory (fun _ => post) request) (app w)) as (m & Hm & _).
    destruct (handleSubmit_resume now _ (app w)) as [st logged]. simpl in *. eauto.
Qed.

(** X4. The conversation only grows: whatever events follow, the messages
    there are stay, in their order and as they are, and the rendered
    conversation is the old one with bubbles added at its end. *)
Theorem conversation_only_grows :
  forall w evs,
    exists more,
      messages (app (run w evs)) = messages (app w) ++ more
      /\ render (app (run w evs)) = render (app w) ++ map renderMessage more.
Proof.
  intros w evs. revert w.
  assert (H : forall w, exists more,
             messages (app (run w evs)) = messages (app w) ++ more).
  { induction evs as [|ev evs IH]; intros w.
    - exists []. simpl. now rewrite app_nil_r.
    - destruct (IH (step w ev)) as (more & Hm).
      change (run w (ev :: evs)) with (run (step w ev) evs). rewrite Hm.
      destruct (step_messages w ev) as [->|(m & ->)]; [eauto|].
      exists (m :: more). now rewrite <- app_assoc. }
  intros w. destruct (H w) as (more & Hm). exists more.
  split; [exact Hm|]. unfold render. now rewrite Hm, map_app.
Qed.

Lemma step_busy w ev : single w -> busy_means_waiting w -> busy_means_waiting (step w ev).
Proof.
  intros Hs Hb. unfold busy_means_waiting in *.
  destruct ev as [value|now|i now post|]; simpl.
  - exact Hb.
  - destruct (handleSubmit now (app w)) as [st [rq|]] eqn:E; simpl.
    + intros _. now destruct (outstanding w).
    + apply handleSubmit_none in E as ->. exact Hb.
  - destruct (outstanding w !! i) as [request|] eqn:Ei; [|exact Hb].
    destruct (handleSubmit_resume now _ (app w)) as [st logged] eqn:E. simpl.
    pose proof (handleSubmit_resume_idle now
                  (generateStory (fun _ => post) request) (app w)) as Hidle.
    rewrite E in Hidle. simpl in Hidle. congruence.
  - exact Hb.
Qed.

Lemma run_busy evs :
  forall w, single w -> busy_means_waiting w -> busy_means_waiting (run w evs).
Proof.
  induction evs as [|ev evs IH]; intros w Hs Hb; [exact Hb|].
  apply (IH (step w ev)); [now apply step_single|now apply step_busy].
Qed.

(** X5. The "Weaving your story..." indicator shows exactly while one
    request is under way, and the client never stays stuck in it: when the
    request settles, in success or in failure, the indicator goes away and
    nothing is under way any more. *)
Theorem indicator_tracks_the_request :
  forall evs,
    let w := run start evs in
    (indicatorVisible (app w) = true <-> length (outstanding w) = 1%nat)
    /\ (forall i now post,
          is_Some (outstanding w !! i) ->
          indicatorVisible (app (step w (Settle i now post))) = false
          /\ outstanding (step w (Settle i now post)) = []).
Proof.
  intros evs w.
  assert (Hs : single w) by apply run_single, single_start.
  assert (Hb : busy_means_waiting w).
  { apply run_busy; [apply single_start|]. intros H. discriminate H. }
  split.
  - unfold indicatorVisible. split.
    + intros H. apply Hb in H. destruct Hs as [_ Hlen].
      destruct (outstanding w) as [|a [|b l]]; simpl in *; [easy|reflexivity|lia].
    + intros H. destruct Hs as [Hnone _].
      destruct (isGenerating (app w)); [reflexivity|].
      rewrite Hnone in H by reflexivity. discriminate H.
  - intros i now post [request Hi]. rewrite (step_settle _ _ _ _ _ Hi). simpl.
    split; [apply handleSubmit_resume_idle|].
    now apply (single_delete w i request).
Qed.

(** X6. The send button is disabled exactly when a submit would be ignored:
    with the button disabled the handler leaves the client as it is and sends
    nothing; with the button enabled it sends a request. *)
Theorem button_disabled_iff_submit_ignored :
  forall st now,
    (submitDisabled st = true <-> handleSubmit now st = (st, None))
    /\ (submitDisabled st = false <-> exists st' rq, handleSubmit now st = (st', Some rq)).
Proof.
  intros st now. unfold submitDisabled, handleSubmit.
  rewrite (orb_comm (isGenerating st)).
  destruct (negb (truthy (trim (input st))) || isGenerating st); simpl.
  - split; split; try easy. now intros (st' & rq & [=]).
  - split; split; try easy. eauto.
Qed.

(** X7. From the start of the page the conversation goes by turns: the
    messages are user, assistant, user, assistant and so on, with one more
    user message at the end exactly while a reply is awaited.  So every
    question gets one reply, and never two. *)
Theorem turns_alternate :
  forall evs,
    let w := run start evs in
    exists k,
      map role (messages (app w))
      = dialogue k ++ (if isGenerating (app w) then [user] else []).
Proof.
  intros evs. unfold run.
  assert (H : forall w,
             single w ->
             (exists k, map role (messages (app w))
                        = dialogue k ++ (if isGenerating (app w) then [user] else [])) ->
             exists k, map role (messages (app (fold_left step evs w)))
                       = dialogue k
                         ++ (if isGenerating (app (fold_left step evs w))
                             then [user] else [])).
  { induction evs as [|ev evs IH]; intros w Hs Hk; [exact Hk|].
    apply (IH (step w ev)); [now apply step_single|].
    destruct Hk as (k & Hk).
    destruct ev as [value|now|i now post|]; simpl.
    - now exists k.
    - destruct (handleSubmit now (app w)) as [st [rq|]] eqn:E.
      + apply handleSubmit_request in E as (_ & Hidle & _ & ->).
        rewrite Hidle, app_nil_r in Hk. exists k. simpl. now rewrite map_app, Hk.
      + apply handleSubmit_none in E as ->. now exists k.
    - destruct (outstanding w !! i) as [request|] eqn:Ei; [|now exists k].
      assert (Hbusy : isGenerating (app w) = true).
      { destruct Hs as [Hnone _]. destruct (isGenerating (app w)); [reflexivity|].
        rewrite Hnone in Ei by reflexivity. discriminate Ei. }
      rewrite Hbusy in Hk.
      pose proof (handleSubmit_resume_idle now
                    (generateStory (fun _ => post) request) (app w)) as Hidle.
      destruct (handleSubmit_resume_messages now
                  (generateStory (fun _ => post) request) (app w))
        as (m & Hm & Hr & _).
      destruct (handleSubmit_resume now _ (app w)) as [st logged]. simpl in *.
      exists (S k). rewrite Hidle, Hm, map_app, Hk. simpl.
      now rewrite Hr, app_nil_r, <- app_assoc.
    - now exists k. }
  apply H; [apply single_start|]. now exists 0%nat.
Qed.

(** X8. What the user's bubbles show is what was sent: from the start of
    the page, the [user_input] of the requests sent, in order, are the texts
    of the user's messages, in order, and every request asks for the medium
    length. *)
Theorem sent_is_what_was_asked :
  forall evs,
    let w := run start evs in
    map user_input (sent w) = asked (app w)
    /\ Forall (fun rq => length_tier rq = Some medium) (sent w).
Proof.
  intros evs. unfold run.
  assert (H : forall w,
             map user_input (sent w) = asked (app w)
             /\ Forall (fun rq => length_tier rq = Some medium) (sent w) ->
             map user_input (sent (fold_left step evs w))
             = asked (app (fold_left step evs w))
             /\ Forall (fun rq => length_tier rq = Some medium)
                  (sent (fold_left step evs w))).
  { induction evs as [|ev evs IH]; intros w Hw; [exact Hw|].
    apply (IH (step w ev)). destruct Hw as [Hm Ht].
    destruct ev as [value|now|i now post|]; simpl.
    - now split.
    - destruct (handleSubmit now (app w)) as [st [rq|]] eqn:E.
      + apply handleSubmit_request in E as (_ & _ & -> & ->). simpl. split.
        * rewrite map_app, Hm. unfold asked. simpl.
          now rewrite List.filter_app, map_app.
        * apply Forall_app. split; [exact Ht|]. now constructor.
      + apply handleSubmit_none in E as ->. now split.
    - destruct (outstanding w !! i) as [request|] eqn:Ei; [|now split].
      destruct (handleSubmit_resume_messages now
                  (generateStory (fun _ => post) request) (app w))
        as (m & Hmsg & Hr & _).
      destruct (handleSubmit_resume now _ (app w)) as [st logged]. simpl in *.
      split; [|exact Ht]. rewrite Hm. unfold asked. rewrite Hmsg.
      rewrite List.filter_app, map_app. simpl. unfold isUser. rewrite Hr.
      simpl. now rewrite app_nil_r.
    - now split. }
  apply H. split; [reflexivity|constructor].
Qed.

(** X9. A submit takes the white space around the text away: when the text
    box holds a core with white space before and after it and no request is
    under way, the request carries the core, the user's bubble shows the
    core, and the text box is emptied. *)
Theorem submit_strips_white_space :
  forall st now lead core trail,
    isGenerating st = false ->
    input st = lead ++ core ++ trail ->
    blank lead = true ->
    blank trail = true ->
    core <> [] ->
    no_lead_ws core ->
    no_trail_ws core ->
    exists st',
      handleSubmit now st
      = (st', Some {| user_input := core; length_tier := Some medium;
                      req_thread_id := or_undefined (threadId st) |})
      /\ messages st'
         = messages st ++ [{| id := toString now; role := user;
                              content := core; story := None |}]
      /\ input st' = [].
Proof.
  intros st now lead core trail Hidle Hin Hl Ht Hne Hc Hr.
  assert (Htrim : trim (input st) = core) by (rewrite Hin; now apply trim_core).
  unfold handleSubmit. rewrite Htrim, Hidle.
  destruct core as [|c core']; [easy|]. simpl.
  eexists. split; [reflexivity|]. split; reflexivity.
Qed.

Lemma submit_strips_white_space_witness :
  exists st',
    handleSubmit 1000 (setInput (lit "  a shy owl ") initial)
    = (st', Some {| user_input := lit "a shy owl"; length_tier := Some medium;
                    req_thread_id := None |})
    /\ messages st'
       = [{| id := toString 1000; role := user;
             content := lit "a shy owl"; story := None |}]
    /\ input st' = [].
Proof.
  apply (submit_strips_white_space (setInput (lit "  a shy owl ") initial) 1000
           (lit "  ") (lit "a shy owl") (lit " "));
    try reflexivity; discriminate.
Defined.

(** The thread id the client holds is never the empty string. *)
Lemma step_threadId_truthy w ev :
  (forall t, threadId (app w) = Some t -> truthy t = true) ->
  forall t, threadId (app (step w ev)) = Some t -> truthy t = true.
Proof.
  intros Hw. destruct ev as [value|now|i now post|]; simpl; try exact Hw.
  - destruct (handleSubmit now (app w)) as [st [rq|]] eqn:E.
    + apply handleSubmit_request in E as (_ & _ & _ & ->). exact Hw.
    + apply handleSubmit_none in E as ->. exact Hw.
  - destruct (outstanding w !! i) as [request|] eqn:Ei; [|exact Hw].
    pose proof (handleSubmit_resume_threadId now
                  (generateStory (fun _ => post) request) (app w)) as Hid.
    destruct (handleSubmit_resume now _ (app w)) as [st logged]. simpl in *.
    rewrite Hid. unfold generateStory. destruct post as [response|e]; simpl.
    + destruct (truthy_opt (thread_id response)) eqn:Et; [|exact Hw].
      intros t Ht. now rewrite Ht in Et.
    + destruct (isAxiosError e); exact Hw.
Qed.

(** One event never takes the thread id away. *)
Lemma step_threadId_stays w ev :
  is_Some (threadId (app w)) -> is_Some (threadId (app (step w ev))).
Proof.
  intros Hw. destruct ev as [value|now|i now post|]; simpl; try exact Hw.
  - destruct (handleSubmit now (app w)) as [st [rq|]] eqn:E.
    + apply handleSubmit_request in E as (_ & _ & _ & ->). exact Hw.
    + apply handleSubmit_none in E as ->. exact Hw.
  - destruct (outstanding w !! i) as [request|] eqn:Ei; [|exact Hw].
    pose proof (handleSubmit_resume_threadId now
                  (generateStory (fun _ => post) request) (app w)) as Hid.
    destruct (handleSubmit_resume now _ (app w)) as [st logged]. simpl in *.
    rewrite Hid. unfold generateStory. destruct post as [response|e]; simpl.
    + destruct (thread_id response) as [t|]; simpl; [|exact Hw].
      destruct (truthy t); [eauto|exact Hw].
    + destruct (isAxiosError e); exact Hw.
Qed.

Lemma run_threadId_truthy evs :
  forall w,
    (forall t, threadId (app w) = Some t -> truthy t = true) ->
    forall t, threadId (app (run w evs)) = Some t -> truthy t = true.
Proof.
  induction evs as [|ev evs IH]; intros w Hw; [exact Hw|].
  apply (IH (step w ev)), step_threadId_truthy, Hw.
Qed.

Lemma run_threadId_stays evs :
  forall w, is_Some (threadId (app w)) -> is_Some (threadId (app (run w evs))).
Proof.
  induction evs as [|ev evs IH]; intros w Hw; [exact Hw|].
  apply (IH (step w ev)), step_threadId_stays, Hw.
Qed.

(** X10. The thread id the client holds: it is never the empty string; each
    request carries exactly the id held when it is sent (none before the
    first one arrived); once the client holds an id no event takes it away;
    and a POST that is rejected, or a reply without a thread id, leaves the
    held id as it is. *)
Theorem held_thread_id :
  forall evs,
    let w := run start evs in
    (forall t, threadId (app w) = Some t -> truthy t = true)
    /\ (forall now st rq,
          handleSubmit now (app w) = (st, Some rq) ->
          req_thread_id rq = threadId (app w))
    /\ (forall later,
          is_Some (threadId (app w)) -> is_Some (threadId (app (run w later))))
    /\ (forall i now e,
          threadId (app (step w (Settle i now (Rejected e)))) = threadId (app w))
    /\ (forall i now response,
          truthy_opt (thread_id response) = false ->
          threadId (app (step w (Settle i now (Fulfilled response))))
          = threadId (app w)).
Proof.
  intros evs w.
  assert (Ht : forall t, threadId (app w) = Some t -> truthy t = true).
  { apply run_threadId_truthy. intros t. discriminate. }
  split; [exact Ht|]. split; [|split; [|split]].
  - intros now st rq E. apply handleSubmit_request in E as (_ & _ & -> & _).
    simpl. destruct (threadId (app w)) as [t|]; [|reflexivity].
    simpl. now rewrite (Ht t).
  - intros later. apply run_threadId_stays.
  - intros i now e. simpl.
    destruct (outstanding w !! i) as [request|] eqn:Ei; [|reflexivity].
    pose proof (handleSubmit_resume_threadId now
                  (generateStory (fun _ => Rejected e) request) (app w)) as Hid.
    destruct (handleSubmit_resume now _ (app w)) as [st logged]. simpl in *.
    rewrite Hid. unfold generateStory. simpl. now destruct (isAxiosError e).
  - intros i now response Hno. simpl.
    destruct (outstanding w !! i) as [request|] eqn:Ei; [|reflexivity].
    pose proof (handleSubmit_resume_threadId now
                  (generateStory (fun _ => Fulfilled response) request) (app w))
      as Hid.
    destruct (handleSubmit_resume now _ (app w)) as [st logged]. simpl in *.
    rewrite Hid. unfold generateStory. simpl. now rewrite Hno.
Qed.

Lemma step_welcome_hidden w ev :
  welcomeVisible (app w) = false -> welcomeVisible (app (step w ev)) = false.
Proof.
  unfold welcomeVisible. intros H.
  destruct ev as [value|now|i now post|]; simpl.
  - exact H.
  - destruct (handleSubmit now (app w)) as [st [rq|]] eqn:E.
    + apply handleSubmit_request in E as (_ & _ & _ & ->). simpl.
      rewrite length_app. simpl.
      replace (length (messages (app w)) + 1 =? 0)%nat with false;
        [apply andb_false_r|].
      symmetry. apply Nat.eqb_neq. lia.
    + apply handleSubmit_none in E as ->. exact H.
  - destruct (outstanding w !! i) as [request|] eqn:Ei; [|exact H].
    destruct (handleSubmit_resume_messages now
                (generateStory (fun _ => post) request) (app w)) as (m & Hm & _).
    pose proof (handleSubmit_resume_showWelcome now
                  (generateStory (fun _ => post) request) (app w)) as Hs.
    destruct (handleSubmit_resume now _ (app w)) as [st logged]. simpl in *.
    rewrite Hm, length_app. simpl.
    replace (length (messages (app w)) + 1 =? 0)%nat with false;
      [apply andb_false_r|].
    symmetry. apply Nat.eqb_neq. lia.
  - reflexivity.
Qed.

Lemma run_welcome_hidden evs :
  forall w, welcomeVisible (app w) = false -> welcomeVisible (app (run w evs)) = false.
Proof.
  induction evs as [|ev evs IH]; intros w Hw; [exact Hw|].
  apply (IH (step w ev)), step_welcome_hidden, Hw.
Qed.

(** X11. The welcome line shows on the fresh page and never comes back once
    it is gone: its timer hides it for good, and so does the first message,
    whatever happens afterwards. *)
Theorem welcome_never_returns :
  forall w later,
    welcomeVisible initial = true
    /\ (welcomeVisible (app w) = false ->
        welcomeVisible (app (run w later)) = false)
    /\ welcomeVisible (app (run (step w WelcomeTimeout) later)) = false
    /\ (messages (app w) <> [] -> welcomeVisible (app (run w later)) = false).
Proof.
  intros w later. split; [reflexivity|]. split; [apply run_welcome_hidden|].
  split.
  - apply run_welcome_hidden. reflexivity.
  - intros Hne. apply run_welcome_hidden. unfold welcomeVisible.
    destruct (messages (app w)); [easy|]. apply andb_false_r.
Qed.

Lemma welcome_never_returns_witness :
  welcomeVisible (app (run start [Change (lit "a shy owl"); Submit 1000])) = false
  /\ welcomeVisible
       (app (run (run start [Change (lit "a shy owl"); Submit 1000])
               [Settle 0 3000 (Rejected (Error (lit "offline")))])) = false.
Proof.
  split; [reflexivity|].
  destruct (welcome_never_returns
              (run start [Change (lit "a shy owl"); Submit 1000])
              [Settle 0 3000 (Rejected (Error (lit "offline")))])
    as (_ & H & _).
  apply H. reflexivity.
Defined.

(** X12. What a settled request writes with [console.error], for the
    replies and failures of the declared types: a reply that is an object
    whose [story], [error] and [thread_id] are strings or missing, and a
    failure whose [detail] is a string or missing (a null reply and a
    [detail] of another type are not covered).  Nothing is written when the
    reply has [success] and a story text; otherwise exactly one error is.
    For a failure reported by axios it is a fresh error whose message is
    "Failed to generate story: " followed by the server's [detail] when that
    is a non-empty string and by axios's own message when it is missing or
    empty; anything else that was thrown is logged as it is; and for a reply
    without success or story it is the reply's [error] text, or "Failed to
    generate story" when that is missing or empty. *)
Theorem what_reaches_the_console :
  forall w i now post request,
    outstanding w !! i = Some request ->
    let w' := step w (Settle i now post) in
    match post with
    | Rejected e =>
        console w'
        = console w
          ++ [if isAxiosError e
              then Error (lit "Failed to generate story: "
                          ++ or_else (detail e) (message e))
              else e]
    | Fulfilled response =>
        if success response && truthy_opt (Api.story response)
        then console w' = console w
        else console w'
             = console w
               ++ [Error (or_else (error response) (lit "Failed to generate story"))]
    end.
Proof.
  intros w i now post request Hi w'. subst w'.
  rewrite (step_settle _ _ _ _ _ Hi).
  unfold handleSubmit_resume, generateStoryFromBackend_settle, generateStory.
  destruct post as [response|e]; simpl.
  - destruct (success response); simpl.
    + destruct (Api.story response) as [s0|]; simpl.
      * destruct (truthy s0); simpl.
        -- destruct (truthy_opt (Api.title response)); simpl; apply app_nil_r.
        -- reflexivity.
      * reflexivity.
    + reflexivity.
  - destruct (isAxiosError e); reflexivity.
Qed.

Lemma what_reaches_the_console_witness :
  console (step (run start [Change (lit "a shy owl"); Submit 1000])
             (Settle 0 3000
                (Rejected {| isAxiosError := true;
                             detail := Some (lit "Model overloaded");
                             message := lit "Request failed with status code 503" |})))
  = [Error (lit "Failed to generate story: Model overloaded")].
Proof.
  apply (what_reaches_the_console
           (run start [Change (lit "a shy owl"); Submit 1000]) 0 3000
           (Rejected {| isAxiosError := true;
                        detail := Some (lit "Model overloaded");
                        message := lit "Request failed with status code 503" |})
           {| user_input := lit "a shy owl"; length_tier := Some medium;
              req_thread_id := None |}).
  reflexivity.
Defined.

(** X13. Message ids.  The user's message gets the clock reading at the
    submit as its id, the reply gets the clock reading at its arrival plus
    one.  The two ids are equal exactly when the submit's reading is the
    arrival's reading plus one; within one turn, where the reply does not
    come before the submit, they differ. *)
Theorem message_ids :
  forall a b st st' rq r st2,
    handleSubmit a st = (st', Some rq) ->
    exists mu ma,
      messages st' = messages st ++ [mu]
      /\ messages (fst (handleSubmit_resume b r st2)) = messages st2 ++ [ma]
      /\ (id mu = id ma <-> a = b + 1)
      /\ (a <= b -> id mu <> id ma).
Proof.
  intros a b st st' rq r st2 E.
  apply handleSubmit_request in E as (_ & _ & _ & ->).
  destruct (handleSubmit_resume_messages b r st2) as (ma & Hma & _ & Hid).
  eexists. exists ma. split; [reflexivity|]. split; [exact Hma|].
  simpl. rewrite Hid.
  assert (Hiff : toString a = toString (b + 1) <-> a = b + 1).
  { split; [apply toString_inj|now intros ->]. }
  split; [exact Hiff|]. intros Hle H. apply Hiff in H. lia.
Qed.

Lemma message_ids_witness :
  exists mu ma,
    messages (fst (handleSubmit 1000 (setInput (lit "a shy owl") initial))) = [mu]
    /\ messages (fst (handleSubmit_resume 3000 (Rejected (Error (lit "offline")))
                        (fst (handleSubmit 1000 (setInput (lit "a shy owl") initial)))))
       = [mu; ma]
    /\ id mu <> id ma.
Proof.
  destruct (message_ids 1000 3000 (setInput (lit "a shy owl") initial)
              (fst (handleSubmit 1000 (setInput (lit "a shy owl") initial)))
              {| user_input := lit "a shy owl"; length_tier := Some medium;
                 req_thread_id := None |}
              (Rejected (Error (lit "offline")))
              (fst (handleSubmit 1000 (setInput (lit "a shy owl") initial))))
    as (mu & ma & Hmu & Hma & _ & Hne); [reflexivity|].
  exists mu, ma. split; [exact Hmu|]. split.
  - rewrite Hma, Hmu. reflexivity.
  - apply Hne. lia.
Defined.

End AppMore.

(** ** The simple client *)

Module AppSimpleMore.
Import JS AppSimple.

Lemma in_step_start : in_step start.
Proof. split; [reflexivity|]. split; [now exists 0%nat|constructor]. Qed.

Lemma step_in_step w ev : in_step w -> in_step (step w ev).
Proof.
  intros (Hw & (k & Hk) & Hp). destruct ev as [value|now|now]; simpl.
  - split; [exact Hw|]. split; [now exists k|exact Hp].
  - unfold handleSubmit.
    destruct (negb (truthy (trim (input (app w))))); simpl;
      [split; [exact Hw|]; split; [now exists k|exact Hp]|].
    destruct (isGenerating (app w)) eqn:Eg; unfold in_step; simpl.
    + rewrite Eg. split; [exact Hw|]. split; [now exists k|exact Hp].
    + split; [now rewrite Hw|]. split.
      * exists k. rewrite map_app, Hk. simpl. now rewrite app_nil_r.
      * apply Forall_app. split; [exact Hp|].
        constructor; [discriminate|constructor].
  - destruct (waiting w) as [|n] eqn:En.
    + unfold in_step. rewrite En. split; [exact Hw|]. split; [now exists k|exact Hp].
    + destruct (isGenerating (app w)) eqn:Eg; [|discriminate].
      unfold in_step. simpl.
      split; [now injection Hw|]. split.
      * exists (S k). rewrite map_app, Hk. simpl.
        now rewrite app_nil_r, <- app_assoc.
      * apply Forall_app. split; [exact Hp|]. now constructor.
Qed.

(** X14. The simple client, from the start of the page: it waits for at
    most one reply at a time; its messages are user, assistant, user,
    assistant and so on, with one more user message at the end exactly while
    a reply is awaited; and every assistant message is the fixed placeholder
    text. *)
Theorem simple_client_turns :
  forall evs,
    let w := run start evs in
    (waiting w <= 1)%nat
    /\ (exists k, map role (messages (app w))
                  = dialogue k ++ (if isGenerating (app w) then [user] else []))
    /\ Forall (fun m => role m = assistant -> content m = placeholder)
         (messages (app w)).
Proof.
  intros evs w.
  assert (H : in_step w).
  { subst w. unfold run.
    assert (G : forall w0, in_step w0 -> in_step (fold_left step evs w0)).
    { induction evs as [|ev evs IH]; intros w0 H0; [exact H0|].
      apply (IH (step w0 ev)), step_in_step, H0. }
    apply G, in_step_start. }
  destruct H as (Hw & Hk & Hp). split; [|split; assumption].
  rewrite Hw. destruct (isGenerating (app w)); lia.
Qed.

End AppSimpleMore.
